(** * tabrouter: the tab-list reducer, its persistence, its initial state and the Link resolver

    A shallow embedding of [TabRouterProvider.tsx] ([createTabsReducer],
    [getInitialState]) and of the click handler of [components/Link.tsx],
    with the JavaScript operations they rely on: arrays and their
    [findIndex], [find], [some], [map], [filter], [splice], spread and
    indexed write; [JSON.parse]; [Number] on a string.

    Conventions of the embedding:
    - a JavaScript number used as an index is an integer, modelled as [Z]
      (NaN, infinities and fractions are outside the model of the reducer);
    - a number read from text is kept as the decimal that names it, see
      [JsNumber];
    - a string is a [string] whose characters are the code units of the
      JavaScript string, all below 256;
    - a [Tab[]] value is a JavaScript array: a slot can be a hole or hold
      [undefined], because the reducer itself can produce both;
    - a [params] object is a finite map: the reducer never looks inside,
      and the order of its keys is not modelled;
    - an exception is an explicit [Throw] outcome;
    - the calls to [sessionStorage.setItem] are returned as a trace. *)

From stdpp Require Import base numbers list strings gmap.
From Stdlib Require Import ZArith Lia Ascii.

Local Open Scope Z_scope.

(** ** Outcomes of a JavaScript computation *)

Inductive Error := TypeError | SyntaxError.

Inductive Completion (A : Type) :=
| Normal (a : A)
| Throw (e : Error).
Arguments Normal {A} a.
Arguments Throw {A} e.

(** ** Data model ([types.ts]) *)

Inductive ParamValue :=
| PString (s : string)
| PNumber (n : Z).

Abbreviation Params := (gmap string ParamValue).

(** [interface Tab { path: string; params?: Record<string, string | number> }] *)
Record Tab := { path : string; params : option Params }.

(** What reading an array element yields: a tab or [undefined]. *)
Inductive Value :=
| undefined
| tab (t : Tab).

(** One slot of a JavaScript array: absent (a hole) or holding a value. *)
Inductive Slot :=
| hole
| elem (v : Value).

Abbreviation item t := (elem (tab t)).

(** [interface TabsState { tabs: Tab[]; active_index: number }] *)
Record TabsState := { tabs : list Slot; active_index : Z }.

(** [Required<TabRouterConfig>] *)
Record TabRouterConfig :=
  { storageKey : string; activeTabStorageKey : string; initialPath : string }.

Definition defaultConfig : TabRouterConfig :=
  {| storageKey := "tabrouter-tabs";
     activeTabStorageKey := "tabrouter-active-tab";
     initialPath := "/" |}.

(** [type TabsAction] *)
Inductive TabsAction :=
| ADD_TAB (payload : Tab)
| REPLACE_TAB (payload : Tab)
| CLOSE_TAB (payload : string)
| CLOSE_OTHER_TABS (payload : string)
| SET_ACTIVE_TAB (payload : string)
| REORDER_TABS (fromIndex toIndex : Z)
| UPDATE_TAB_PARAMS (path : string) (params : option Params).

(** ** JavaScript arrays *)

Module Array.

(** [a[k]] for an index inside the array: a hole reads as [undefined]. *)
Definition get (s : Slot) : Value :=
  match s with hole => undefined | elem v => v end.

(** [a.length] *)
Definition length (a : list Slot) : Z := Z.of_nat (List.length a).

(** [a.findIndex(cb)]: visits every index in order, holes included,
    and stops at the first hit; an exception of the callback escapes. *)
Fixpoint findIndex_from (k : Z) (cb : Value → Completion bool)
    (a : list Slot) : Completion Z :=
  match a with
  | [] => Normal (-1)
  | s :: a' =>
      match cb (get s) with
      | Throw e => Throw e
      | Normal true => Normal k
      | Normal false => findIndex_from (k + 1) cb a'
      end
  end.

Definition findIndex := findIndex_from 0.

(** [a.find(cb)] *)
Fixpoint find (cb : Value → Completion bool) (a : list Slot)
    : Completion Value :=
  match a with
  | [] => Normal undefined
  | s :: a' =>
      match cb (get s) with
      | Throw e => Throw e
      | Normal true => Normal (get s)
      | Normal false => find cb a'
      end
  end.

(** [a.some(cb)]: holes are skipped. *)
Fixpoint some (cb : Value → Completion bool) (a : list Slot)
    : Completion bool :=
  match a with
  | [] => Normal false
  | hole :: a' => some cb a'
  | elem v :: a' =>
      match cb v with
      | Throw e => Throw e
      | Normal true => Normal true
      | Normal false => some cb a'
      end
  end.

(** [a.map((v, idx) => ...)]: the callback is not called on a hole,
    which stays a hole. *)
Fixpoint map_from (k : Z) (cb : Value → Z → Value) (a : list Slot)
    : list Slot :=
  match a with
  | [] => []
  | hole :: a' => hole :: map_from (k + 1) cb a'
  | elem v :: a' => elem (cb v k) :: map_from (k + 1) cb a'
  end.

Definition map := map_from 0.

(** [a.filter((v, idx) => ...)]: holes are skipped and dropped. *)
Fixpoint filter_from (k : Z) (cb : Value → Z → bool) (a : list Slot)
    : list Slot :=
  match a with
  | [] => []
  | hole :: a' => filter_from (k + 1) cb a'
  | elem v :: a' =>
      if cb v k then elem v :: filter_from (k + 1) cb a'
      else filter_from (k + 1) cb a'
  end.

Definition filter := filter_from 0.

(** [[...a]]: the iterator yields [undefined] for a hole. *)
Definition spread (a : list Slot) : list Slot :=
  List.map (λ s, elem (get s)) a.

(** [a.splice(start, deleteCount, ...items)]: the removed slots and the
    array afterwards.  [start] is taken from the end when negative and
    clamped to the array; [deleteCount] is clamped to what is there. *)
Definition splice (start deleteCount : Z) (items : list Value)
    (a : list Slot) : list Slot * list Slot :=
  let len := length a in
  let actualStart :=
    if start <? 0 then Z.max (len + start) 0 else Z.min start len in
  let actualDeleteCount :=
    Z.min (Z.max deleteCount 0) (len - actualStart) in
  let i := Z.to_nat actualStart in
  let n := Z.to_nat actualDeleteCount in
  (take n (drop i a), take i a ++ (elem <$> items) ++ drop (i + n)%nat a).

(** [const [x] = a]: the first value of the iteration, [undefined] when
    there is none. *)
Definition first (a : list Slot) : Value :=
  match a with [] => undefined | s :: _ => get s end.

(** [a[i] = v] for an integer [i].  Below [2^32 - 1] the key is an array
    index: the write replaces the slot, or extends the array leaving
    holes before it.  Another integer names an ordinary property, which
    none of the operations above reads: the slots stay as they are. *)
Definition set (i : Z) (v : Value) (a : list Slot) : list Slot :=
  if (0 <=? i) && (i <? 2 ^ 32 - 1) then
    if i <? length a then <[Z.to_nat i := elem v]> a
    else a ++ replicate (Z.to_nat (i - length a)) hole ++ [elem v]
  else a.

End Array.

(** ** The reducer ([createTabsReducer]) *)

(** The callback [(tab) => tab.path === p]: reading [.path] of
    [undefined] is a [TypeError]. *)
Definition path_is (p : string) (v : Value) : Completion bool :=
  match v with
  | undefined => Throw TypeError
  | tab t => Normal (bool_decide (path t = p))
  end.

(** [{ ...tab, params: params || {} }] for a tab: an absent ([undefined]
    or [null]) payload gives the empty object. *)
Definition with_params (params : option Params) (t : Tab) : Tab :=
  {| path := path t; params := Some (default ∅ params) |}.

(** How a [case] of the [switch] ends: [return state] or [break] with
    [newState] assigned. *)
Inductive Branch :=
| Return_state
| Break (newState : TabsState).

Definition transition (state : TabsState) (action : TabsAction)
    : Completion Branch :=
  match action with
  | ADD_TAB newTab =>
      match Array.findIndex (path_is (path newTab)) (tabs state) with
      | Throw e => Throw e
      | Normal existingTab =>
          if negb (existingTab =? -1) then
            Normal (Break
              {| active_index := existingTab;
                 tabs := Array.map
                   (λ v idx, if idx =? existingTab then tab newTab else v)
                   (tabs state) |})
          else
            let newTabs := Array.spread (tabs state) ++ [item newTab] in
            Normal (Break
              {| tabs := newTabs;
                 active_index := Array.length newTabs - 1 |})
      end
  | REPLACE_TAB newTab =>
      match Array.findIndex (path_is (path newTab)) (tabs state) with
      | Throw e => Throw e
      | Normal existingTab =>
          if negb (existingTab =? -1) then
            Normal (Break
              {| tabs := tabs state; active_index := existingTab |})
          else
            let newTabs := Array.spread (tabs state) in
            let newTabs := Array.set (active_index state) (tab newTab) newTabs in
            Normal (Break
              {| tabs := newTabs; active_index := active_index state |})
      end
  | CLOSE_TAB closingPath =>
      match Array.findIndex (path_is closingPath) (tabs state) with
      | Throw e => Throw e
      | Normal closingIndex =>
          if (closingIndex =? -1) || (Array.length (tabs state) <? 2) then
            Normal Return_state
          else
            let newTabs :=
              Array.filter (λ _ idx, negb (idx =? closingIndex)) (tabs state) in
            let newActiveIndex :=
              if active_index state =? closingIndex then
                if Array.length newTabs =? 0 then 0
                else Z.min closingIndex (Array.length newTabs - 1)
              else if active_index state >? closingIndex then
                Z.max 0 (active_index state - 1)
              else active_index state in
            Normal (Break
              {| tabs := newTabs; active_index := newActiveIndex |})
      end
  | CLOSE_OTHER_TABS p =>
      match Array.find (path_is p) (tabs state) with
      | Throw e => Throw e
      | Normal undefined => Normal Return_state
      | Normal (tab keepTab) =>
          Normal (Break {| tabs := [item keepTab]; active_index := 0 |})
      end
  | SET_ACTIVE_TAB p =>
      match Array.findIndex (path_is p) (tabs state) with
      | Throw e => Throw e
      | Normal tabIndex =>
          if tabIndex =? -1 then Normal Return_state
          else
            Normal (Break {| tabs := tabs state; active_index := tabIndex |})
      end
  | REORDER_TABS fromIndex toIndex =>
      let newTabs := Array.spread (tabs state) in
      let '(removed, newTabs) := Array.splice fromIndex 1 [] newTabs in
      let movedTab := Array.first removed in
      let '(_, newTabs) := Array.splice toIndex 0 [movedTab] newTabs in
      Normal (Break {| tabs := newTabs; active_index := toIndex |})
  | UPDATE_TAB_PARAMS p params =>
      match Array.findIndex (path_is p) (tabs state) with
      | Throw e => Throw e
      | Normal tabIndex =>
          if tabIndex =? -1 then Normal Return_state
          else
            Normal (Break
              {| tabs := Array.map
                   (λ v idx,
                      if idx =? tabIndex then
                        match v with
                        | tab t => tab (with_params params t)
                        | undefined =>
                            (* [{ ...undefined, params }] has no path; not
                               reached, [tabIndex] is where [findIndex]
                               found a tab: see [findIndex_hit] *)
                            undefined
                        end
                      else v)
                   (tabs state);
                 active_index := tabIndex |})
      end
  end.

(** The host calls of the persistence block, in program order.  The string
    handed to [setItem] is named by the host function that builds it. *)
Inductive HostString :=
| JSON_stringify (tabs : list Slot)
| String_of_number (n : Z).

Inductive HostCall :=
| sessionStorage_setItem (key : string) (value : HostString).

(** The host: whether a [window] global exists, and what the session
    storage holds. *)
Record Host := { window : bool; sessionStorage : gmap string string }.

(** [// Persist to sessionStorage] *)
Definition persist (config : TabRouterConfig) (host : Host)
    (newState : TabsState) : list HostCall :=
  if window host then
    [ sessionStorage_setItem (storageKey config)
        (JSON_stringify (tabs newState));
      sessionStorage_setItem (activeTabStorageKey config)
        (String_of_number (active_index newState)) ]
  else [].

(** The reducer returned by [createTabsReducer(config)]: its completion
    and the host calls it made. *)
Definition createTabsReducer (config : TabRouterConfig) (host : Host)
    (state : TabsState) (action : TabsAction)
    : Completion TabsState * list HostCall :=
  match transition state action with
  | Throw e => (Throw e, [])
  | Normal Return_state => (Normal state, [])
  | Normal (Break newState) => (Normal newState, persist config host newState)
  end.

(** ** States and their invariants *)

(** A slot that holds a tab. *)
Definition is_tab (s : Slot) : Prop :=
  match s with elem (tab _) => True | _ => False end.

(** A state as [types.ts] declares it: [tabs] is a JavaScript array (at
    most [2^32 - 1] slots) and every slot holds a tab. *)
Definition well_typed (state : TabsState) : Prop :=
  Forall is_tab (tabs state) ∧ Array.length (tabs state) ≤ 2 ^ 32 - 1.

(** The tabs an array holds, in order. *)
Definition tabs_of (a : list Slot) : list Tab :=
  omap (λ s, match s with elem (tab t) => Some t | _ => None end) a.

Definition active_in_range (state : TabsState) : Prop :=
  tabs state ≠ [] → 0 ≤ active_index state < Array.length (tabs state).

Definition unique_paths (state : TabsState) : Prop :=
  NoDup (path <$> tabs_of (tabs state)).

Definition invariants (state : TabsState) : Prop :=
  active_in_range state ∧ unique_paths state.

(** The array holding the tabs of a list, and the state built from it. *)
Definition of_tabs (l : list Tab) : list Slot := (λ t, elem (tab t)) <$> l.

Definition state_of (l : list Tab) (a : Z) : TabsState :=
  {| tabs := of_tabs l; active_index := a |}.

(** A slot holding a tab whose path is [p]. *)
Definition has_path (p : string) (s : Slot) : Prop :=
  match s with elem (tab t) => path t = p | _ => False end.

#[global] Instance has_path_dec p s : Decision (has_path p s).
Proof. destruct s as [|[|t]]; simpl; apply _. Defined.

#[global] Instance is_tab_dec s : Decision (is_tab s).
Proof. destruct s as [|[|t]]; simpl; apply _. Defined.

(** A callback of [map] applied to a slot. *)
Definition on_value (f : Value → Value) (s : Slot) : Slot :=
  match s with hole => hole | elem v => elem (f v) end.

(** No tab of the state has path [p]. *)
Definition absent (p : string) (state : TabsState) : Prop :=
  Forall (λ s, ¬ has_path p s) (tabs state).

(** ** JavaScript strings *)

Module JSString.

(** [s.indexOf(needle)] *)
Definition indexOf (s needle : string) : Z :=
  match String.index 0 needle s with
  | Some n => Z.of_nat n
  | None => -1
  end.

(** [s.substring(start, stop)], [stop] defaulting to the length: both
    ends are clamped to the string and swapped when out of order. *)
Definition substring (s : string) (start : Z) (stop : option Z) : string :=
  let len := Z.of_nat (String.length s) in
  let clamp i := Z.min (Z.max i 0) len in
  let a := clamp start in
  let b := clamp (default len stop) in
  String.substring (Z.to_nat (Z.min a b)) (Z.to_nat (Z.max a b - Z.min a b)) s.

End JSString.

(** ** The [Link] component *)

Module Link.

(** [href: string | { path: string; params?: Record<...> }] *)
Inductive Href :=
| href_string (s : string)
| href_object (path : string) (params : option Params).

Record MouseEvent :=
  { defaultPrevented : bool;
    metaKey : bool; ctrlKey : bool; shiftKey : bool; altKey : bool }.

(** The props the click handler looks at.  A handler of the user sees
    the event first and can prevent its default. *)
Record LinkProps :=
  { href : Href;
    replace : bool;
    target : option string;
    onClick : option (MouseEvent → MouseEvent) }.

Record ParsedHref :=
  { parsed_path : string; parsed_params : Params; parsed_hash : string }.

(** The operations of [useTabRouter()] the handler can invoke. *)
Inductive RouterCall :=
| push (url : Tab)
| replaceTab (url : Tab)
| switchToPath (path : string).

Inductive Effect :=
| preventDefault
| router (call : RouterCall)
| setTimeout_scrollIntoView (hash : string) (delay : Z).

Section WithSearchParams.

(** The loop over [new URLSearchParams(searchString)] that fills
    [params], a function of the host. *)
Variable search_params : string → Params.

(** [parsedHref] *)
Definition parsedHref (href : Href) : ParsedHref :=
  match href with
  | href_object p ps =>
      {| parsed_path := p; parsed_params := default ∅ ps; parsed_hash := "" |}
  | href_string href =>
      let hashIndex := JSString.indexOf href "#" in
      let '(path, hash) :=
        if negb (hashIndex =? -1) then
          (JSString.substring href 0 (Some hashIndex),
           JSString.substring href hashIndex None)
        else (href, "") in
      let queryIndex := JSString.indexOf path "?" in
      let '(path, searchString) :=
        if negb (queryIndex =? -1) then
          (JSString.substring path 0 (Some queryIndex),
           JSString.substring path (queryIndex + 1) None)
        else (path, "") in
      let params :=
        if bool_decide (searchString = "") then ∅
        else search_params searchString in
      {| parsed_path := path; parsed_params := params; parsed_hash := hash |}
  end.

(** [tabExists] *)
Definition tabExists (tabs : list Slot) (parsed : ParsedHref)
    : Completion bool :=
  Array.some (path_is (parsed_path parsed)) tabs.

(** [shouldSwitchToExisting] *)
Definition shouldSwitchToExisting (tabExists : bool) (props : LinkProps)
    : bool :=
  tabExists && negb (replace props)
    && negb (bool_decide (target props = Some "_blank")).

Definition destination (parsed : ParsedHref) : Tab :=
  {| path := parsed_path parsed; params := Some (parsed_params parsed) |}.

(** [handleClick], closed over the values of the render. *)
Definition handleClick (props : LinkProps) (parsed : ParsedHref)
    (shouldSwitchToExisting : bool) (host : Host) (e : MouseEvent)
    : list Effect :=
  let e := match onClick props with Some f => f e | None => e end in
  if defaultPrevented e || metaKey e || ctrlKey e || shiftKey e || altKey e
  then []
  else
    preventDefault ::
    if bool_decide (target props = Some "_blank") then
      [router (push (destination parsed))]
    else if shouldSwitchToExisting then
      [router (switchToPath (parsed_path parsed))]
    else
      (if replace props then [router (replaceTab (destination parsed))]
       else [router (push (destination parsed))])
      ++ (if negb (bool_decide (parsed_hash parsed = "")) && window host
          then [setTimeout_scrollIntoView (parsed_hash parsed) 100]
          else []).

(** A render of the component followed by a click on its anchor. *)
Definition click (props : LinkProps) (tabs : list Slot) (host : Host)
    (e : MouseEvent) : Completion (list Effect) :=
  let parsed := parsedHref (href props) in
  match tabExists tabs parsed with
  | Throw err => Throw err
  | Normal ex =>
      Normal (handleClick props parsed (shouldSwitchToExisting ex props)
                host e)
  end.

End WithSearchParams.

(** The router operations among the effects of a click. *)
Definition router_calls (effects : list Effect) : list RouterCall :=
  omap (λ eff, match eff with router c => Some c | _ => None end) effects.

(** The event as the handler of the component sees it. *)
Definition seen (props : LinkProps) (e : MouseEvent) : MouseEvent :=
  match onClick props with Some f => f e | None => e end.

End Link.

(** ** Numbers read from text *)

(** A JavaScript number obtained from a literal: not-a-number, an
    infinity, or the double nearest to [(-1)^negative * digits *
    10^exponent]. *)
Inductive JsNumber :=
| NaN
| Infinity (negative : bool)
| Decimal (negative : bool) (digits : N) (exponent : Z).

(** The double nearest to the decimal is zero: the digits are zero, or the
    value is at most [2^-1075], half the smallest positive double (the
    tie rounds to the even neighbour, zero). *)
Definition rounds_to_zero (digits : N) (exponent : Z) : bool :=
  (digits =? 0)%N
  || ((exponent <? 0) && (Z.of_N digits * 2 ^ 1075 <=? 10 ^ (- exponent))).

(** [!n] for a number: zero and NaN are falsy. *)
Definition falsy_number (n : JsNumber) : bool :=
  match n with
  | NaN => true
  | Infinity _ => false
  | Decimal _ d e => rounds_to_zero d e
  end.

Module Lex.

Local Open Scope char_scope.

Definition is_digit (c : ascii) : bool :=
  (48 <=? nat_of_ascii c)%nat && (nat_of_ascii c <=? 57)%nat.

Definition digit_value (c : ascii) : N := N_of_ascii c - 48.

(** The longest prefix of decimal digits: its value continuing [acc],
    how many digits it has, and the rest. *)
Fixpoint digits_from (acc : N) (count : nat) (s : string)
    : N * nat * string :=
  match s with
  | String c s' =>
      if is_digit c then digits_from (acc * 10 + digit_value c) (S count) s'
      else (acc, count, s)
  | EmptyString => (acc, count, s)
  end.

Definition digits := digits_from 0 0.

(** [ExponentPart] at the very end of a literal: [e] or [E], an optional
    sign and at least one digit.  [None] when something else follows. *)
Definition exponent_to_end (s : string) : option Z :=
  match s with
  | EmptyString => Some 0
  | String c s' =>
      if (c =? "e") || (c =? "E") then
        let '(negative, s'') :=
          match s' with
          | String "-" r => (true, r)
          | String "+" r => (false, r)
          | _ => (false, s')
          end in
        match digits s'' with
        | (_, O, _) => None
        | (v, _, EmptyString) =>
            Some (if negative : bool then - Z.of_N v else Z.of_N v)
        | _ => None
        end
      else None
  end.

(** Digits in a radix up to 16, to the end of the literal. *)
Definition radix_digit (radix : N) (c : ascii) : option N :=
  let n := N_of_ascii c in
  let v :=
    if (48 <=? n)%N && (n <=? 57)%N then Some (n - 48)%N
    else if (97 <=? n)%N && (n <=? 102)%N then Some (n - 87)%N
    else if (65 <=? n)%N && (n <=? 70)%N then Some (n - 55)%N
    else None in
  match v with
  | Some d => if (d <? radix)%N then Some d else None
  | None => None
  end.

Fixpoint radix_digits_from (radix acc : N) (s : string) : option N :=
  match s with
  | EmptyString => Some acc
  | String c s' =>
      match radix_digit radix c with
      | Some d => radix_digits_from radix (acc * radix + d) s'
      | None => None
      end
  end.

Definition radix_literal (radix : N) (s : string) : option N :=
  match s with
  | EmptyString => None
  | _ => radix_digits_from radix 0 s
  end.

(** [StrWhiteSpaceChar] among the code units below 256. *)
Definition is_StrWhiteSpaceChar (c : ascii) : bool :=
  let n := nat_of_ascii c in
  ((9 <=? n) && (n <=? 13) || (n =? 32) || (n =? 160))%nat.

Fixpoint trim_start (s : string) : string :=
  match s with
  | String c s' => if is_StrWhiteSpaceChar c then trim_start s' else s
  | EmptyString => s
  end.

Fixpoint trim_end (s : string) : string :=
  match s with
  | EmptyString => EmptyString
  | String c s' =>
      match trim_end s' with
      | EmptyString => if is_StrWhiteSpaceChar c then EmptyString
                       else String c EmptyString
      | r => String c r
      end
  end.

(** [StrUnsignedDecimalLiteral], to the end of the string. *)
Definition unsigned_decimal (negative : bool) (s : string) : option JsNumber :=
  if bool_decide (s = "Infinity"%string) then Some (Infinity negative)
  else
    let '(int, n1, r1) := digits s in
    match r1 with
    | String "." r2 =>
        let '(m, n2, r3) := digits_from int 0 r2 in
        if (n1 =? 0)%nat && (n2 =? 0)%nat then None
        else
          match exponent_to_end r3 with
          | Some e => Some (Decimal negative m (e - Z.of_nat n2))
          | None => None
          end
    | _ =>
        if (n1 =? 0)%nat then None
        else
          match exponent_to_end r1 with
          | Some e => Some (Decimal negative int e)
          | None => None
          end
    end.

(** [StrNumericLiteral] *)
Definition numeric_literal (s : string) : option JsNumber :=
  match s with
  | String "0" (String c r) =>
      if (c =? "x") || (c =? "X") then
        (λ n, Decimal false n 0) <$> radix_literal 16 r
      else if (c =? "o") || (c =? "O") then
        (λ n, Decimal false n 0) <$> radix_literal 8 r
      else if (c =? "b") || (c =? "B") then
        (λ n, Decimal false n 0) <$> radix_literal 2 r
      else unsigned_decimal false s
  | String "+" r => unsigned_decimal false r
  | String "-" r => unsigned_decimal true r
  | _ => unsigned_decimal false s
  end.

End Lex.

(** [Number(s)] for a string (StringToNumber): the empty or blank string
    is [0], a string that is no numeric literal is [NaN]. *)
Definition Number (s : string) : JsNumber :=
  let s := Lex.trim_end (Lex.trim_start s) in
  match s with
  | EmptyString => Decimal false 0 0
  | _ => default NaN (Lex.numeric_literal s)
  end.

(** ** JSON text *)

#[local] Set Warnings "-register-all".

(** A parsed JSON value.  The strings of a JSON text can name any code
    unit through an escape, so they are lists of code units; an object
    keeps its members in the order of the text. *)
Inductive Json :=
| JNull
| JBool (b : bool)
| JNumber (n : JsNumber)
| JString (s : list N)
| JArray (elements : list Json)
| JObject (members : list (list N * Json)).

(** The code units of a string. *)
Fixpoint units (s : string) : list N :=
  match s with
  | EmptyString => []
  | String c s' => N_of_ascii c :: units s'
  end.

(** [!!v] for a parsed value. *)
Definition truthy (v : Json) : bool :=
  match v with
  | JNull => false
  | JBool b => b
  | JNumber n => negb (falsy_number n)
  | JString s => negb (bool_decide (s = []))
  | JArray _ | JObject _ => true
  end.

Module JSON.

Local Open Scope char_scope.

Inductive Parse (A : Type) :=
| Parsed (a : A) (rest : string)
| Invalid
| OutOfFuel.
Arguments Parsed {A} a rest.
Arguments Invalid {A}.
Arguments OutOfFuel {A}.

(** JSON white space: tab, line feed, carriage return, space. *)
Definition is_ws (c : ascii) : bool :=
  let n := nat_of_ascii c in
  ((n =? 9) || (n =? 10) || (n =? 13) || (n =? 32))%nat.

Fixpoint skip_ws (s : string) : string :=
  match s with
  | String c s' => if is_ws c then skip_ws s' else s
  | EmptyString => s
  end.

(** The rest of [s] after the prefix [p]. *)
Fixpoint after (p s : string) : option string :=
  match p, s with
  | EmptyString, _ => Some s
  | String c p', String d s' => if c =? d then after p' s' else None
  | String _ _, EmptyString => None
  end.

(** The rest of [s] after the character [c]. *)
Definition eat (c : ascii) (s : string) : option string :=
  match s with
  | String d r => if d =? c then Some r else None
  | EmptyString => None
  end.

Definition quote : ascii := "034".

(** A number, from its first character on: an optional minus sign; a
    zero, or digits that do not start with a zero; optionally a point
    and digits; optionally [e] or [E], a sign and digits. *)
Definition number (s : string) : Parse JsNumber :=
  let '(negative, s1) :=
    match eat "-" s with Some r => (true, r) | None => (false, s) end in
  let int :=
    match eat "0" s1 with
    | Some r => Some (0%N, r)
    | None => match Lex.digits s1 with
              | (_, O, _) => None
              | (v, _, r) => Some (v, r)
              end
    end in
  match int with
  | None => Invalid
  | Some (v, r1) =>
      let frac :=
        match eat "." r1 with
        | Some r2 =>
            match Lex.digits_from v 0 r2 with
            | (_, O, _) => None
            | (m, n, r3) => Some (m, - Z.of_nat n, r3)
            end
        | None => Some (v, 0, r1)
        end in
      match frac with
      | None => Invalid
      | Some (m, e0, r3) =>
          match eat "e" r3, eat "E" r3 with
          | Some r4, _ | None, Some r4 =>
              let '(eneg, r5) :=
                match eat "-" r4, eat "+" r4 with
                | Some r, _ => (true, r)
                | None, Some r => (false, r)
                | None, None => (false, r4)
                end in
              match Lex.digits r5 with
              | (_, O, _) => Invalid
              | (ev, _, r6) =>
                  Parsed (Decimal negative m
                            (e0 + if eneg : bool then - Z.of_N ev else Z.of_N ev))
                         r6
              end
          | None, None => Parsed (Decimal negative m e0) r3
          end
      end
  end.

Definition hex4 (a b c d : ascii) : option N :=
  match Lex.radix_digit 16 a, Lex.radix_digit 16 b,
        Lex.radix_digit 16 c, Lex.radix_digit 16 d with
  | Some x, Some y, Some z, Some w => Some (((x * 16 + y) * 16 + z) * 16 + w)%N
  | _, _, _, _ => None
  end.

(** The code unit a one-letter escape stands for. *)
Definition escape (e : ascii) : option N :=
  if e =? quote then Some 34%N else if e =? "\" then Some 92%N
  else if e =? "/" then Some 47%N else if e =? "b" then Some 8%N
  else if e =? "f" then Some 12%N else if e =? "n" then Some 10%N
  else if e =? "r" then Some 13%N else if e =? "t" then Some 9%N
  else None.

(** The characters of a string after its opening quote, up to the
    closing one.  A control character is not allowed unescaped. *)
Fixpoint chars (s : string) : Parse (list N) :=
  match s with
  | EmptyString => Invalid
  | String c r =>
      if c =? quote then Parsed [] r
      else if c =? "\" then
        match r with
        | EmptyString => Invalid
        | String e r1 =>
            if e =? "u" then
              match r1 with
              | String h1 (String h2 (String h3 (String h4 r2))) =>
                  match hex4 h1 h2 h3 h4, chars r2 with
                  | Some u, Parsed us r' => Parsed (u :: us) r'
                  | _, _ => Invalid
                  end
              | _ => Invalid
              end
            else
              match escape e, chars r1 with
              | Some u, Parsed us r' => Parsed (u :: us) r'
              | _, _ => Invalid
              end
        end
      else if (N_of_ascii c <? 32)%N then Invalid
      else
        match chars r with
        | Parsed us r' => Parsed (N_of_ascii c :: us) r'
        | _ => Invalid
        end
  end.

(** The literals [true], [false] and [null]. *)
Definition literal (s : string) : Parse Json :=
  match after "true" s, after "false" s, after "null" s with
  | Some r, _, _ => Parsed (JBool true) r
  | None, Some r, _ => Parsed (JBool false) r
  | None, None, Some r => Parsed JNull r
  | None, None, None => Invalid
  end.

(** A value; the elements of an array from the first one to the closing
    bracket; the members of an object from the first one to the closing
    brace. *)
Fixpoint value (fuel : nat) (s : string) : Parse Json :=
  match fuel with
  | O => OutOfFuel
  | S fuel =>
      match skip_ws s with
      | EmptyString => Invalid
      | String c r as s' =>
          if c =? "{" then
            match eat "}" (skip_ws r) with
            | Some r' => Parsed (JObject []) r'
            | None =>
                match members fuel (skip_ws r) with
                | Parsed ms r' => Parsed (JObject ms) r'
                | Invalid => Invalid
                | OutOfFuel => OutOfFuel
                end
            end
          else if c =? "[" then
            match eat "]" (skip_ws r) with
            | Some r' => Parsed (JArray []) r'
            | None =>
                match elements fuel (skip_ws r) with
                | Parsed vs r' => Parsed (JArray vs) r'
                | Invalid => Invalid
                | OutOfFuel => OutOfFuel
                end
            end
          else if c =? quote then
            match chars r with
            | Parsed us r' => Parsed (JString us) r'
            | _ => Invalid
            end
          else if (c =? "-") || Lex.is_digit c then
            match number s' with
            | Parsed n r' => Parsed (JNumber n) r'
            | _ => Invalid
            end
          else literal s'
      end
  end

with elements (fuel : nat) (s : string) : Parse (list Json) :=
  match fuel with
  | O => OutOfFuel
  | S fuel =>
      match value fuel s with
      | Parsed v r =>
          match eat "]" (skip_ws r), eat "," (skip_ws r) with
          | Some r', _ => Parsed [v] r'
          | None, Some r' =>
              match elements fuel r' with
              | Parsed vs r'' => Parsed (v :: vs) r''
              | Invalid => Invalid
              | OutOfFuel => OutOfFuel
              end
          | None, None => Invalid
          end
      | Invalid => Invalid
      | OutOfFuel => OutOfFuel
      end
  end

with members (fuel : nat) (s : string) : Parse (list (list N * Json)) :=
  match fuel with
  | O => OutOfFuel
  | S fuel =>
      match eat quote (skip_ws s) with
      | None => Invalid
      | Some r =>
          match chars r with
          | Parsed key r1 =>
              match eat ":" (skip_ws r1) with
              | None => Invalid
              | Some r2 =>
                  match value fuel r2 with
                  | Parsed v r3 =>
                      match eat "}" (skip_ws r3), eat "," (skip_ws r3) with
                      | Some r4, _ => Parsed [(key, v)] r4
                      | None, Some r4 =>
                          match members fuel r4 with
                          | Parsed ms r5 => Parsed ((key, v) :: ms) r5
                          | Invalid => Invalid
                          | OutOfFuel => OutOfFuel
                          end
                      | None, None => Invalid
                      end
                  | Invalid => Invalid
                  | OutOfFuel => OutOfFuel
                  end
              end
          | _ => Invalid
          end
      end
  end.

(** [JSON.parse(text)]: one value between white space, or a
    [SyntaxError].  The fuel covers any text, see [value_fuel]; the limit
    an engine puts on the depth of nesting is not modelled. *)
Definition parse (text : string) : Completion Json :=
  match value (2 * String.length text + 2) text with
  | Parsed v rest =>
      match skip_ws rest with
      | EmptyString => Normal v
      | String _ _ => Throw SyntaxError
      end
  | Invalid | OutOfFuel => Throw SyntaxError
  end.

End JSON.

(** ** The initial state ([getInitialState]) *)

(** The object [getInitialState] returns, as JavaScript has it: whatever
    [JSON.parse] and [Number] gave, under the names of [TabsState]. *)
Record InitialState := { initial_tabs : Json; initial_active_index : JsNumber }.

(** [{ path: initialPath, params: {} }] *)
Definition initialTab (config : TabRouterConfig) : Json :=
  JObject [ (units "path", JString (units (initialPath config)));
            (units "params", JObject []) ].

(** The single-tab default state. *)
Definition default_state (config : TabRouterConfig) : InitialState :=
  {| initial_tabs := JArray [initialTab config];
     initial_active_index := Decimal false 0 0 |}.

(** [sessionStorage.getItem(key)]: the string stored, [None] for [null]. *)
Definition getItem (host : Host) (key : string) : option string :=
  sessionStorage host !! key.

Definition getInitialState (config : TabRouterConfig) (host : Host)
    : Completion InitialState :=
  if negb (window host) then
    Normal {| initial_tabs := JArray [initialTab config];
              initial_active_index := Decimal false 0 0 |}
  else
    let storedTabs := getItem host (storageKey config) in
    let storedActiveIndex := getItem host (activeTabStorageKey config) in
    let tabs : Completion Json :=
      match storedTabs with
      | None | Some EmptyString => Normal (JArray [initialTab config])
      | Some text =>
          match JSON.parse text with
          | Throw e => Throw e
          | Normal v =>
              Normal (if truthy v then v else JArray [initialTab config])
          end
      end in
    let active_index : JsNumber :=
      match storedActiveIndex with
      | None | Some EmptyString => Decimal false 0 0
      | Some text =>
          if falsy_number (Number text) then Decimal false 0 0
          else Number text
      end in
    match tabs with
    | Throw e => Throw e
    | Normal tabs =>
        Normal {| initial_tabs := tabs; initial_active_index := active_index |}
    end.

(** The stored values for which [getInitialState] uses its defaults. *)
Definition tabs_unusable (stored : option string) : Prop :=
  match stored with
  | None | Some EmptyString => True
  | Some text => ∃ v, JSON.parse text = Normal v ∧ truthy v = false
  end.

Definition index_unusable (stored : option string) : Prop :=
  match stored with
  | None | Some EmptyString => True
  | Some text => falsy_number (Number text) = true
  end.

(** A storage holding the two items of the default configuration. *)
Definition stored (tabs index : option string) : Host :=
  {| window := true;
     sessionStorage :=
       from_option (λ s, {[ "tabrouter-tabs" := s ]}) ∅ tabs
       ∪ from_option (λ s, {[ "tabrouter-active-tab" := s ]}) ∅ index |}.

(** The branches that the specification calls no-ops: CLOSE_TAB with an
    absent path or a single remaining tab, and CLOSE_OTHER_TABS,
    SET_ACTIVE_TAB or UPDATE_TAB_PARAMS with an absent path. *)
Definition no_op (state : TabsState) (action : TabsAction) : Prop :=
  match action with
  | CLOSE_TAB p => absent p state ∨ Array.length (tabs state) = 1
  | CLOSE_OTHER_TABS p | SET_ACTIVE_TAB p | UPDATE_TAB_PARAMS p _ =>
      absent p state
  | ADD_TAB _ | REPLACE_TAB _ | REORDER_TABS _ _ => False
  end.

(** REORDER_TABS within the precondition of the specification; the other
    commands have none. *)
Definition reorder_in_range (state : TabsState) (action : TabsAction) : Prop :=
  match action with
  | REORDER_TABS fromIndex toIndex =>
      0 ≤ fromIndex < Array.length (tabs state)
      ∧ 0 ≤ toIndex < Array.length (tabs state)
  | _ => True
  end.

(** The path a command looks up in the tab list with [findIndex] or
    [find]; REORDER_TABS looks none up. *)
Definition looks_up (action : TabsAction) : option string :=
  match action with
  | ADD_TAB t | REPLACE_TAB t => Some (path t)
  | CLOSE_TAB p | CLOSE_OTHER_TABS p | SET_ACTIVE_TAB p
  | UPDATE_TAB_PARAMS p _ => Some p
  | REORDER_TABS _ _ => None
  end.

(** ** Dispatch *)

(** The reducer applied to the actions in the order they were dispatched,
    each to the state the one before it returned, with the host calls of
    all of them.  An exception ends the run. *)
Fixpoint dispatch_all (config : TabRouterConfig) (host : Host)
    (state : TabsState) (actions : list TabsAction)
    : Completion TabsState * list HostCall :=
  match actions with
  | [] => (Normal state, [])
  | action :: rest =>
      match createTabsReducer config host state action with
      | (Normal newState, calls) =>
          let '(result, calls') := dispatch_all config host newState rest in
          (result, calls ++ calls')
      | (Throw e, calls) => (Throw e, calls)
      end
  end.

(** One dispatch that returns a state, inside the reducer's
    precondition on REORDER_TABS and inside the length a JavaScript array
    can have. *)
Definition step (config : TabRouterConfig) (host : Host)
    (state newState : TabsState) : Prop :=
  ∃ action,
    reorder_in_range state action
    ∧ (createTabsReducer config host state action).1 = Normal newState
    ∧ Array.length (tabs newState) ≤ 2 ^ 32 - 1.

(** A state with at least one tab, every slot holding a tab, that
    satisfies the invariants. *)
Definition valid (state : TabsState) : Prop :=
  well_typed state ∧ tabs state ≠ [] ∧ invariants state.

(** ** The hooks ([useTabRouter], [useTabs], [useRouter]) *)

(** [a[i]] for an integer [i], on an array that has no property besides
    its slots: [undefined] outside the array and on a hole. *)
Definition array_read (a : list Slot) (i : Z) : Value :=
  if 0 <=? i then
    match a !! Z.to_nat i with
    | Some s => Array.get s
    | None => undefined
    end
  else undefined.

Module Router.

(** [url: string | { path: string; params?: ... }] *)
Inductive Url :=
| url_string (s : string)
| url_object (t : Tab).

Definition desiredPath (url : Url) : string :=
  match url with url_string s => s | url_object t => path t end.

(** [payload: { path: desiredPath, params: typeof url === "string" ? {} :
    url.params }] *)
Definition payload (url : Url) : Tab :=
  {| path := desiredPath url;
     params := match url with
               | url_string _ => Some ∅
               | url_object t => params t
               end |}.

Definition push (url : Url) : TabsAction := ADD_TAB (payload url).
Definition replace (url : Url) : TabsAction := REPLACE_TAB (payload url).
Definition closePath (p : string) : TabsAction := CLOSE_TAB p.
Definition closeOthers (p : string) : TabsAction := CLOSE_OTHER_TABS p.
Definition switchToPath (p : string) : TabsAction := SET_ACTIVE_TAB p.
Definition reorderTabs (fromIndex toIndex : Z) : TabsAction :=
  REORDER_TABS fromIndex toIndex.

(** [tabs?.[active_index] || null] *)
Definition active (state : TabsState) : option Tab :=
  match array_read (tabs state) (active_index state) with
  | tab t => Some t
  | undefined => None
  end.

(** [x || "/"] for a string. *)
Definition or_root (p : string) : string :=
  if bool_decide (p = "") then "/" else p.

(** [typeof activeTab?.path === "string" ? activeTab?.path || "/" : "/"] *)
Definition pathname (state : TabsState) : string :=
  match active state with
  | Some t => or_root (path t)
  | None => "/"
  end.

(** [typeof activeTab?.params === "object" ? activeTab?.params || {} : {}] *)
Definition query (state : TabsState) : Params :=
  match active state with
  | Some t => default ∅ (params t)
  | None => ∅
  end.

(** [useTabs().switchToTab]: dispatches only when [tabs.find] finds the
    path. *)
Definition switchToTab (state : TabsState) (p : string)
    : Completion (list TabsAction) :=
  match Array.find (path_is p) (tabs state) with
  | Throw e => Throw e
  | Normal (tab _) => Normal [SET_ACTIVE_TAB p]
  | Normal undefined => Normal []
  end.

(** [useTabs().isTabOpen] and [useTabs().getTabByPath] *)
Definition isTabOpen (state : TabsState) (p : string) : Completion bool :=
  Array.some (path_is p) (tabs state).

Definition getTabByPath (state : TabsState) (p : string) : Completion Value :=
  Array.find (path_is p) (tabs state).

(** [useRouter().back]: [switchToPath(tabs[active_index - 1]?.path || "/")]
    when [active_index > 0]. *)
Definition back (state : TabsState) : list TabsAction :=
  if active_index state >? 0 then
    [ switchToPath
        match array_read (tabs state) (active_index state - 1) with
        | tab t => or_root (path t)
        | undefined => "/"
        end ]
  else [].

(** [useRouter().reload]: [switchToPath(active.path)] when
    [active?.path] is truthy. *)
Definition reload (state : TabsState) : list TabsAction :=
  match active state with
  | Some t => if bool_decide (path t = "") then [] else [switchToPath (path t)]
  | None => []
  end.

End Router.

(** The action a router operation invoked by [Link] dispatches. *)
Definition dispatched (call : Link.RouterCall) : TabsAction :=
  match call with
  | Link.push url => Router.push (Router.url_object url)
  | Link.replaceTab url => Router.replace (Router.url_object url)
  | Link.switchToPath p => Router.switchToPath p
  end.

(** [isActive] of [Link]: [pathname === parsedHref.path]. *)
Definition isActive (state : TabsState) (parsed : Link.ParsedHref) : bool :=
  bool_decide (Router.pathname state = Link.parsed_path parsed).

(** The test that opens [handleClick], after the handler of the user has
    seen the event: [e.defaultPrevented || e.metaKey || e.ctrlKey ||
    e.shiftKey || e.altKey]. *)
Definition left_to_browser (props : Link.LinkProps) (e : Link.MouseEvent)
    : bool :=
  let e := Link.seen props e in
  Link.defaultPrevented e || Link.metaKey e || Link.ctrlKey e
    || Link.shiftKey e || Link.altKey e.

(** The actions a click dispatches, in order. *)
Definition actions_of (effects : list Link.Effect) : list TabsAction :=
  dispatched <$> Link.router_calls effects.

(** ** Sample data *)

Definition T (p : string) : Tab := {| path := p; params := None |}.
Definition browser : Host := {| window := true; sessionStorage := ∅ |}.
Definition server : Host := {| window := false; sessionStorage := ∅ |}.
Definition abc (x : Z) : TabsState := state_of [T "/a"; T "/b"; T "/c"] x.
Definition b5 : Tab := {| path := "/b"; params := Some {[ "id" := PNumber 5 ]} |}.

(** A click without modifier keys, and a link without a handler of its
    own. *)
Definition plain_click : Link.MouseEvent :=
  {| Link.defaultPrevented := false; Link.metaKey := false;
     Link.ctrlKey := false; Link.shiftKey := false; Link.altKey := false |}.

Definition link_to (href : Link.Href) (replace : bool) (target : option string)
    : Link.LinkProps :=
  {| Link.href := href; Link.replace := replace; Link.target := target;
     Link.onClick := None |}.

(** A quotation mark, to write JSON texts with. *)
Definition q : string := String JSON.quote "".

(** * Properties *)

(** ** JavaScript arrays that hold tabs *)

Section Arrays.
Implicit Types (a : list Slot) (l : list Tab) (p : string) (k : Z).

Lemma is_tab_inv s : is_tab s → ∃ t, s = elem (tab t).
Proof. destruct s as [|[|t]]; simpl; [done..|eauto]. Qed.

Lemma Forall_is_tab_of_tabs l : Forall is_tab (of_tabs l).
Proof. unfold of_tabs. induction l; simpl; constructor; done. Qed.

Lemma tabs_of_of_tabs l : tabs_of (of_tabs l) = l.
Proof. unfold of_tabs, tabs_of. induction l; simpl; [done|]. by f_equal. Qed.

Lemma of_tabs_tabs_of a : Forall is_tab a → of_tabs (tabs_of a) = a.
Proof.
  unfold of_tabs, tabs_of. induction 1 as [|s a Hs _ IH]; simpl; [done|].
  apply is_tab_inv in Hs as [t ->]. simpl. by f_equal.
Qed.

Lemma lookup_tabs_of a i t :
  Forall is_tab a → a !! i = Some (elem (tab t)) → tabs_of a !! i = Some t.
Proof.
  intros Ha Hi. rewrite <- (of_tabs_tabs_of a Ha) in Hi.
  unfold of_tabs in Hi. rewrite list_lookup_fmap in Hi.
  destruct (tabs_of a !! i); simpl in Hi; congruence.
Qed.

(** On an array of tabs [findIndex] never throws and returns the first
    index whose tab has the path, or [-1]. *)
Lemma findIndex_from_tabs k p a :
  Forall is_tab a →
  Array.findIndex_from k (path_is p) a =
    Normal (match list_find (has_path p) a with
            | Some (i, _) => k + Z.of_nat i
            | None => -1
            end).
Proof.
  intros Ha. revert k. induction Ha as [|s a Hs _ IH]; intros k; [done|].
  apply is_tab_inv in Hs as [t ->]. cbn [Array.findIndex_from Array.get path_is list_find].
  unfold has_path at 1. case_bool_decide; case_decide; try done.
  - f_equal. lia.
  - rewrite IH. destruct (list_find _ a) as [[i s]|]; simpl; f_equal. lia.
Qed.

Lemma findIndex_tabs p a :
  Forall is_tab a →
  Array.findIndex (path_is p) a =
    Normal (match list_find (has_path p) a with
            | Some (i, _) => Z.of_nat i
            | None => -1
            end).
Proof.
  intros Ha. unfold Array.findIndex. rewrite findIndex_from_tabs by done.
  by destruct (list_find _ a) as [[i s]|].
Qed.

(** A hit of [findIndex] is a slot that holds a tab with the path,
    whatever else the array holds. *)
Lemma findIndex_from_hit k p a i :
  Array.findIndex_from k (path_is p) a = Normal i → i ≠ -1 → 0 ≤ k →
  k ≤ i ∧ ∃ t, a !! Z.to_nat (i - k) = Some (elem (tab t)) ∧ path t = p.
Proof.
  revert k. induction a as [|s a IH]; intros k Hf Hi Hk; simplify_eq/=.
  destruct s as [|[|t]]; simplify_eq/=.
  case_bool_decide as Hp; simplify_eq/=.
  - split; [lia|]. exists t. by rewrite Z.sub_diag.
  - destruct (IH (k + 1) Hf Hi ltac:(lia)) as (Hle & t' & Hl & Hp').
    split; [lia|]. exists t'. split; [|done].
    replace (Z.to_nat (i - k)) with (S (Z.to_nat (i - (k + 1)))) by lia. done.
Qed.

Lemma findIndex_hit p a i :
  Array.findIndex (path_is p) a = Normal i → i ≠ -1 →
  ∃ t, a !! Z.to_nat i = Some (elem (tab t)) ∧ path t = p.
Proof.
  intros Hf Hi. destruct (findIndex_from_hit 0 p a i Hf Hi) as (_ & t & Ht & Hp);
    [done|]. exists t. by rewrite Z.sub_0_r in Ht.
Qed.

Lemma find_tabs p a :
  Forall is_tab a →
  Array.find (path_is p) a =
    Normal (match list_find (has_path p) a with
            | Some (_, s) => Array.get s
            | None => undefined
            end).
Proof.
  induction 1 as [|s a Hs _ IH]; [done|].
  apply is_tab_inv in Hs as [t ->]. cbn [Array.find Array.get path_is list_find].
  unfold has_path at 1. case_bool_decide; case_decide; try done.
  rewrite IH. by destruct (list_find _ a) as [[i s]|].
Qed.

(** With unique paths, the tab that has a path is the one [findIndex]
    finds. *)
Lemma list_find_unique p a c t :
  Forall is_tab a → NoDup (path <$> tabs_of a) →
  a !! c = Some (elem (tab t)) → path t = p →
  list_find (has_path p) a = Some (c, elem (tab t)).
Proof.
  intros Ha Hnd Hc Hp. apply list_find_Some. split_and!; [done|done|].
  intros j s Hj Hlt Hs.
  pose proof (Forall_lookup_1 _ _ _ _ Ha Hj) as Hjt.
  apply is_tab_inv in Hjt as [t' ->]. simpl in Hs.
  apply (lookup_tabs_of _ _ _ Ha) in Hj, Hc.
  assert (j = c) as ->; [|lia].
  eapply (NoDup_lookup _ _ _ _ Hnd); rewrite list_lookup_fmap.
  - by rewrite Hj.
  - rewrite Hc. simpl. congruence.
Qed.

Lemma list_find_absent p a :
  Forall (λ s, ¬ has_path p s) a → list_find (has_path p) a = None.
Proof. intros H. by apply list_find_None. Qed.

Lemma spread_tabs a : Forall is_tab a → Array.spread a = a.
Proof.
  unfold Array.spread. induction 1 as [|s a Hs _ IH]; simpl; [done|].
  apply is_tab_inv in Hs as [t ->]. simpl. by f_equal.
Qed.

(** [map] with a callback that changes the value at one index only. *)
Lemma map_from_miss k j (f : Value → Value) a :
  j < k → Array.map_from k (λ v idx, if idx =? j then f v else v) a = a.
Proof.
  revert k. induction a as [|s a IH]; intros k Hk; [done|].
  destruct s as [|v]; cbn [Array.map_from]; rewrite IH by lia; [done|].
  by rewrite (proj2 (Z.eqb_neq k j)) by lia.
Qed.

Lemma map_from_at k (i : nat) (f : Value → Value) a :
  Array.map_from k (λ v idx, if idx =? k + Z.of_nat i then f v else v) a
    = alter (on_value f) i a.
Proof.
  revert k i. induction a as [|s a IH]; intros k i; [done|].
  destruct i as [|i].
  - replace (k + Z.of_nat 0) with k by lia.
    destruct s as [|v]; cbn [Array.map_from]; rewrite map_from_miss by lia;
      [done|]. by rewrite Z.eqb_refl.
  - replace (k + Z.of_nat (S i)) with ((k + 1) + Z.of_nat i) by lia.
    destruct s as [|v]; cbn [Array.map_from]; rewrite IH; [done|].
    by rewrite (proj2 (Z.eqb_neq k _)) by lia.
Qed.

Lemma map_at (i : nat) (f : Value → Value) a :
  Array.map (λ v idx, if idx =? Z.of_nat i then f v else v) a
    = alter (on_value f) i a.
Proof. exact (map_from_at 0 i f a). Qed.

Lemma alter_lookup {A} (f : A → A) (i : nat) (x : list A) y :
  x !! i = Some y → alter f i x = <[i := f y]> x.
Proof.
  revert i. induction x as [|z x IH]; intros [|i] Hi; simplify_eq/=; [done|].
  f_equal. by apply IH.
Qed.

(** [filter] with a callback that drops one index only. *)
Lemma filter_from_miss k j a :
  Forall is_tab a → j < k →
  Array.filter_from k (λ _ idx, negb (idx =? j)) a = a.
Proof.
  intros Ha. revert k. induction Ha as [|s a Hs _ IH]; intros k Hk; [done|].
  apply is_tab_inv in Hs as [t ->]. cbn [Array.filter_from].
  rewrite (proj2 (Z.eqb_neq k j)) by lia. simpl. by rewrite IH by lia.
Qed.

Lemma filter_from_at k (i : nat) a :
  Forall is_tab a →
  Array.filter_from k (λ _ idx, negb (idx =? k + Z.of_nat i)) a = delete i a.
Proof.
  intros Ha. revert k i.
  induction Ha as [|s a Hs Ha IH]; intros k i; [by destruct i|].
  apply is_tab_inv in Hs as [t ->]. destruct i as [|i].
  - replace (k + Z.of_nat 0) with k by lia. cbn [Array.filter_from].
    rewrite Z.eqb_refl. simpl. by rewrite filter_from_miss by (done || lia).
  - replace (k + Z.of_nat (S i)) with ((k + 1) + Z.of_nat i) by lia.
    cbn [Array.filter_from].
    rewrite (proj2 (Z.eqb_neq k _)) by lia. simpl. by rewrite IH.
Qed.

Lemma filter_at (i : nat) a :
  Forall is_tab a →
  Array.filter (λ _ idx, negb (idx =? Z.of_nat i)) a = delete i a.
Proof. exact (filter_from_at 0 i a). Qed.

End Arrays.

(** ** The branches of the reducer on a well-typed state *)

Ltac zbool :=
  repeat match goal with
  | |- context [?x >? ?y] => rewrite (Z.gtb_ltb x y)
  | |- context [?x =? ?y] => destruct (Z.eqb_spec x y)
  | |- context [?x <? ?y] => destruct (Z.ltb_spec x y)
  | |- context [?x <=? ?y] => destruct (Z.leb_spec x y)
  end.

Section Branches.
Implicit Types (a : list Slot) (x : Z) (t : Tab) (p : string).

Let St a x := {| tabs := a; active_index := x |}.

Lemma list_find_lt p a i s :
  list_find (has_path p) a = Some (i, s) → (i < length a)%nat.
Proof. intros [H _]%list_find_Some. by eapply lookup_lt_Some. Qed.

Lemma transition_ADD_TAB a x t :
  Forall is_tab a →
  transition (St a x) (ADD_TAB t) =
    Normal (Break
      match list_find (has_path (path t)) a with
      | Some (i, _) => St (<[i := elem (tab t)]> a) (Z.of_nat i)
      | None => St (a ++ [elem (tab t)]) (Array.length a)
      end).
Proof.
  intros Ha. cbn [transition tabs active_index St].
  rewrite findIndex_tabs by done.
  destruct (list_find _ a) as [[i s]|] eqn:Hf.
  - rewrite (proj2 (Z.eqb_neq _ (-1))) by lia. cbn [negb].
    rewrite map_at. apply list_find_Some in Hf as (Hi & _ & _).
    rewrite (alter_lookup _ _ _ _ Hi).
    by destruct (is_tab_inv _ (Forall_lookup_1 _ _ _ _ Ha Hi)) as [t0 ->].
  - rewrite Z.eqb_refl. cbn [negb]. rewrite spread_tabs by done.
    unfold St. do 3 f_equal. unfold Array.length. rewrite length_app. simpl. lia.
Qed.

Lemma transition_CLOSE_TAB a x p :
  Forall is_tab a →
  transition (St a x) (CLOSE_TAB p) =
    Normal
      match list_find (has_path p) a with
      | Some (c, _) =>
          if Array.length a <? 2 then Return_state
          else
            let n := Array.length (delete c a) in
            Break (St (delete c a)
              (if x =? Z.of_nat c then Z.min (Z.of_nat c) (n - 1)
               else if Z.of_nat c <? x then x - 1 else x))
      | None => Return_state
      end.
Proof.
  intros Ha. cbn [transition tabs active_index St].
  rewrite findIndex_tabs by done.
  destruct (list_find _ a) as [[c s]|] eqn:Hf; [|by rewrite Z.eqb_refl].
  rewrite (proj2 (Z.eqb_neq _ (-1))) by lia. cbn [orb].
  destruct (Z.ltb_spec (Array.length a) 2) as [|Hlen]; [done|].
  rewrite filter_at by done. cbn zeta. unfold St. do 3 f_equal.
  apply list_find_lt in Hf.
  assert (Array.length (delete c a) = Array.length a - 1) as Hn.
  { unfold Array.length. rewrite length_delete by (by apply lookup_lt_is_Some_2). lia. }
  zbool; lia.
Qed.

Lemma transition_REPLACE_TAB a x t :
  Forall is_tab a →
  transition (St a x) (REPLACE_TAB t) =
    Normal (Break
      match list_find (has_path (path t)) a with
      | Some (i, _) => St a (Z.of_nat i)
      | None => St (Array.set x (tab t) a) x
      end).
Proof.
  intros Ha. cbn [transition tabs active_index St].
  rewrite findIndex_tabs by done.
  destruct (list_find _ a) as [[i s]|] eqn:Hf.
  - by rewrite (proj2 (Z.eqb_neq _ (-1))) by lia.
  - rewrite Z.eqb_refl. cbn [negb]. by rewrite spread_tabs.
Qed.

Lemma transition_CLOSE_OTHER_TABS a x p :
  Forall is_tab a →
  transition (St a x) (CLOSE_OTHER_TABS p) =
    Normal
      match list_find (has_path p) a with
      | Some (_, s) => Break (St [s] 0)
      | None => Return_state
      end.
Proof.
  intros Ha. cbn [transition tabs active_index St].
  rewrite find_tabs by done.
  destruct (list_find _ a) as [[i s]|] eqn:Hf; [|done].
  apply list_find_Some in Hf as (Hi & _ & _).
  by destruct (is_tab_inv _ (Forall_lookup_1 _ _ _ _ Ha Hi)) as [t0 ->].
Qed.

Lemma transition_SET_ACTIVE_TAB a x p :
  Forall is_tab a →
  transition (St a x) (SET_ACTIVE_TAB p) =
    Normal
      match list_find (has_path p) a with
      | Some (i, _) => Break (St a (Z.of_nat i))
      | None => Return_state
      end.
Proof.
  intros Ha. cbn [transition tabs active_index St].
  rewrite findIndex_tabs by done.
  destruct (list_find _ a) as [[i s]|] eqn:Hf; [|done].
  by rewrite (proj2 (Z.eqb_neq _ (-1))) by lia.
Qed.

Lemma transition_UPDATE_TAB_PARAMS a x p params :
  Forall is_tab a →
  transition (St a x) (UPDATE_TAB_PARAMS p params) =
    Normal
      match list_find (has_path p) a with
      | Some (i, elem (tab t)) =>
          Break (St (<[i := elem (tab (with_params params t))]> a) (Z.of_nat i))
      | _ => Return_state
      end.
Proof.
  intros Ha. cbn [transition tabs active_index St].
  rewrite findIndex_tabs by done.
  destruct (list_find _ a) as [[i s]|] eqn:Hf; [|done].
  rewrite (proj2 (Z.eqb_neq _ (-1))) by lia.
  apply list_find_Some in Hf as (Hi & _ & _).
  destruct (is_tab_inv _ (Forall_lookup_1 _ _ _ _ Ha Hi)) as [t0 ->].
  by rewrite map_at, (alter_lookup _ _ _ _ Hi).
Qed.

(** REORDER_TABS with both indices inside the list: the tab at [n] is
    taken out and put back at [m]. *)
Lemma transition_REORDER_TABS_in_range a x (n m : nat) s :
  Forall is_tab a → a !! n = Some s → (m < length a)%nat →
  transition (St a x) (REORDER_TABS (Z.of_nat n) (Z.of_nat m)) =
    Normal (Break
      (St (take m (delete n a) ++ s :: drop m (delete n a)) (Z.of_nat m))).
Proof.
  intros Ha Hn Hm. pose proof (lookup_lt_Some _ _ _ Hn) as Hlt.
  cbn [transition tabs active_index St]. rewrite spread_tabs by done.
  unfold Array.splice at 1.
  rewrite (proj2 (Z.ltb_ge _ 0)) by lia.
  unfold Array.length.
  rewrite (Z.min_l (Z.of_nat n)), (Z.max_l 1 0), (Z.min_l 1) by lia.
  rewrite Nat2Z.id. change (Z.to_nat 1) with 1%nat.
  rewrite app_nil_l, Nat.add_1_r, <- delete_take_drop.
  rewrite (drop_S _ _ _ Hn). cbn [take Array.first].
  unfold Array.splice. unfold Array.length.
  rewrite length_delete by (by apply lookup_lt_is_Some_2).
  rewrite (proj2 (Z.ltb_ge _ 0)) by lia.
  rewrite (Z.min_l (Z.of_nat m)), (Z.max_l 0 0), (Z.min_l 0) by lia.
  rewrite Nat2Z.id. change (Z.to_nat 0) with 0%nat. rewrite Nat.add_0_r.
  destruct (is_tab_inv _ (Forall_lookup_1 _ _ _ _ Ha Hn)) as [t0 ->].
  done.
Qed.

End Branches.

(** ** CLOSE_TAB *)

(** C4. For every state that satisfies the invariants, has at least two
    tabs and holds a tab with path [P] at index [c], CLOSE_TAB(P) removes
    exactly that tab; the new active index is [min(c, newLength - 1)] when
    [c] was the active index, [active_index - 1] when [c] was below the
    active index, and the old active index otherwise.  When no tab has
    path [P], or the list has one tab only, the input state is returned
    unchanged. *)
Theorem CLOSE_TAB_removes_and_shifts config host state P :
  well_typed state → invariants state →
  (∀ (c : nat) t,
     2 ≤ Array.length (tabs state) →
     tabs state !! c = Some (elem (tab t)) → path t = P →
     (createTabsReducer config host state (CLOSE_TAB P)).1 =
       Normal
         {| tabs := delete c (tabs state);
            active_index :=
              let newLength := Array.length (tabs state) - 1 in
              if decide (active_index state = Z.of_nat c)
              then Z.min (Z.of_nat c) (newLength - 1)
              else if decide (Z.of_nat c < active_index state)
              then active_index state - 1
              else active_index state |})
  ∧ (absent P state ∨ Array.length (tabs state) = 1 →
     (createTabsReducer config host state (CLOSE_TAB P)).1 = Normal state).
Proof.
  intros [Ha _] [_ Hnd]. destruct state as [a x]. unfold createTabsReducer.
  rewrite (transition_CLOSE_TAB a x P Ha). cbn [tabs active_index] in *.
  split.
  - intros c t Hlen Hc Hp.
    rewrite (list_find_unique P a c t Ha Hnd Hc Hp).
    rewrite (proj2 (Z.ltb_ge _ _)) by lia. cbn [fst]. do 2 f_equal.
    assert (Array.length (delete c a) = Array.length a - 1) as ->.
    { unfold Array.length in *.
      rewrite length_delete by (apply lookup_lt_is_Some_2; by eapply lookup_lt_Some).
      lia. }
    cbn zeta. zbool; repeat case_decide; lia.
  - intros [Habs | Hlen].
    + by rewrite (list_find_absent P a Habs).
    + destruct (list_find _ a) as [[c s]|]; [|done]. by rewrite Hlen.
Qed.

Ltac concrete :=
  lazymatch goal with
  | |- well_typed _ => split; [repeat constructor | by vm_compute]
  | |- invariants _ =>
      split; [intros _; by vm_compute
             | unfold unique_paths; apply (bool_decide_unpack _); by vm_compute]
  | |- _ => by vm_compute
  end.

Lemma CLOSE_TAB_removes_and_shifts_witness :
  well_typed (abc 2) ∧ invariants (abc 2) ∧
  (createTabsReducer defaultConfig browser (abc 2) (CLOSE_TAB "/b")).1
    = Normal (state_of [T "/a"; T "/c"] 1).
Proof.
  assert (Hwt : well_typed (abc 2)) by concrete.
  assert (Hinv : invariants (abc 2)) by concrete.
  split_and!; [done..|].
  exact (proj1 (CLOSE_TAB_removes_and_shifts defaultConfig browser (abc 2) "/b"
                  Hwt Hinv) 1%nat (T "/b") ltac:(concrete) eq_refl eq_refl).
Defined.

(** ** ADD_TAB *)

Lemma list_find_insert_same p (a : list Slot) i s s' :
  list_find (has_path p) a = Some (i, s) → has_path p s' →
  list_find (has_path p) (<[i := s']> a) = Some (i, s').
Proof.
  intros (Hi & _ & Hbefore)%list_find_Some Hs'. apply list_find_Some.
  split_and!; [|done|].
  - apply list_lookup_insert_eq. by eapply lookup_lt_Some.
  - intros j y Hj Hlt. rewrite list_lookup_insert_ne in Hj by lia. by eapply Hbefore.
Qed.

Lemma list_find_snoc p (a : list Slot) s' :
  list_find (has_path p) a = None → has_path p s' →
  list_find (has_path p) (a ++ [s']) = Some (length a, s').
Proof.
  intros Hnone%list_find_None Hs'. apply list_find_Some. split_and!; [|done|].
  - by rewrite lookup_app_r, Nat.sub_diag by lia.
  - intros j y Hj Hlt. rewrite lookup_app_l in Hj by lia.
    by eapply (Forall_lookup_1 _ _ _ _ Hnone).
Qed.

(** C5. For every state that satisfies the invariants and every tab [t]:
    when a tab with path [t.path] exists at index [i], ADD_TAB(t) replaces
    the entry at [i] with [t], keeps every other entry and sets
    [active_index = i]; otherwise it appends [t] and sets [active_index] to
    the new last index.  Applying ADD_TAB(t) a second time yields the state
    of the first application, and the tab with that path carries the
    params of the payload. *)
Theorem ADD_TAB_replaces_or_appends config host state t :
  well_typed state → invariants state →
  (∀ (i : nat) t0,
     tabs state !! i = Some (elem (tab t0)) → path t0 = path t →
     (createTabsReducer config host state (ADD_TAB t)).1 =
       Normal {| tabs := <[i := elem (tab t)]> (tabs state);
                 active_index := Z.of_nat i |})
  ∧ (absent (path t) state →
     (createTabsReducer config host state (ADD_TAB t)).1 =
       Normal {| tabs := tabs state ++ [elem (tab t)];
                 active_index :=
                   Array.length (tabs state ++ [elem (tab t)]) - 1 |})
  ∧ (∃ once,
       (createTabsReducer config host state (ADD_TAB t)).1 = Normal once
       ∧ (createTabsReducer config host once (ADD_TAB t)).1 = Normal once
       ∧ ∀ t', elem (tab t') ∈ tabs once → path t' = path t →
               params t' = params t).
Proof.
  intros [Ha _] [_ Hnd]. destruct state as [a x]. unfold createTabsReducer.
  rewrite (transition_ADD_TAB a x t Ha). cbn [tabs active_index fst] in *.
  split_and!.
  - intros i t0 Hi Hp. by rewrite (list_find_unique _ a i t0 Ha Hnd Hi Hp).
  - intros Habs. rewrite (list_find_absent _ a Habs). do 2 f_equal.
    unfold Array.length. rewrite length_app. simpl. lia.
  - destruct (list_find _ a) as [[i s]|] eqn:Hf; eexists; (split; [done|]).
    + assert (Forall is_tab (<[i := elem (tab t)]> a)) as Ha'.
      { apply Forall_insert; done. }
      rewrite (transition_ADD_TAB _ _ t Ha'). cbn [tabs active_index fst].
      rewrite (list_find_insert_same _ a i s _ Hf) by done.
      rewrite list_insert_insert_eq. split; [done|].
      intros t' [j Hj]%list_elem_of_lookup Hp.
      destruct (decide (j = i)) as [->|Hne].
      * rewrite list_lookup_insert_eq in Hj by (by eapply list_find_lt).
        by simplify_eq.
      * rewrite list_lookup_insert_ne in Hj by done.
        rewrite (list_find_unique _ a j t' Ha Hnd Hj Hp) in Hf. by simplify_eq.
    + assert (Forall is_tab (a ++ [elem (tab t)])) as Ha'.
      { apply Forall_app. split; [done|]. by repeat constructor. }
      rewrite (transition_ADD_TAB _ _ t Ha'). cbn [tabs active_index fst].
      rewrite (list_find_snoc _ a _ Hf) by done.
      rewrite insert_app_r_alt, Nat.sub_diag by lia. split; [done|].
      intros t' [Hin|Hin]%elem_of_app Hp.
      * apply list_find_None in Hf. rewrite Forall_forall in Hf.
        by destruct (Hf _ Hin).
      * apply list_elem_of_singleton in Hin. by simplify_eq.
Qed.

Lemma ADD_TAB_replaces_or_appends_witness :
  well_typed (abc 0) ∧ invariants (abc 0) ∧
  (createTabsReducer defaultConfig browser (abc 0) (ADD_TAB b5)).1
    = Normal (state_of [T "/a"; b5; T "/c"] 1).
Proof.
  assert (Hwt : well_typed (abc 0)) by concrete.
  assert (Hinv : invariants (abc 0)) by concrete.
  split_and!; [done..|].
  exact (proj1 (ADD_TAB_replaces_or_appends defaultConfig browser (abc 0) b5
                  Hwt Hinv) 1%nat (T "/b") eq_refl eq_refl).
Defined.

(** ** REPLACE_TAB *)

Lemma set_in_range (x : Z) v (a : list Slot) :
  0 ≤ x < Array.length a → Array.length a ≤ 2 ^ 32 - 1 →
  Array.set x v a = <[Z.to_nat x := elem v]> a.
Proof.
  intros Hx Hlen. unfold Array.set.
  rewrite (proj2 (Z.leb_le 0 x)), (proj2 (Z.ltb_lt x (2 ^ 32 - 1))) by lia.
  by rewrite (proj2 (Z.ltb_lt x _)) by lia.
Qed.

(** C6, as the code has it.  For every state that satisfies the
    invariants and every tab [t]: when a tab with path [t.path] exists at
    index [i], REPLACE_TAB(t) changes [active_index] to [i] and leaves
    every tab entry, the params of that tab included, as it was;
    otherwise, when a tab is at index [active_index] (that is, when the
    list is not empty), it overwrites that tab with [t], and the list
    length and [active_index] stay as they were.  An empty list has no
    tab to overwrite, see [REPLACE_TAB_on_empty_list]. *)
Theorem REPLACE_TAB_activates_or_overwrites config host state t :
  well_typed state → invariants state →
  (∀ (i : nat) t0,
     tabs state !! i = Some (elem (tab t0)) → path t0 = path t →
     (createTabsReducer config host state (REPLACE_TAB t)).1 =
       Normal {| tabs := tabs state; active_index := Z.of_nat i |})
  ∧ (absent (path t) state →
     ∀ current,
       tabs state !! Z.to_nat (active_index state) = Some (elem (tab current)) →
       ∃ newTabs,
         newTabs = <[Z.to_nat (active_index state) := elem (tab t)]> (tabs state)
         ∧ length newTabs = length (tabs state)
         ∧ (createTabsReducer config host state (REPLACE_TAB t)).1 =
             Normal {| tabs := newTabs; active_index := active_index state |}).
Proof.
  intros [Ha Hlen] [Hrange Hnd]. destruct state as [a x].
  unfold createTabsReducer.
  rewrite (transition_REPLACE_TAB a x t Ha). cbn [tabs active_index fst] in *.
  split.
  - intros i t0 Hi Hp. by rewrite (list_find_unique _ a i t0 Ha Hnd Hi Hp).
  - intros Habs current Hcur. rewrite (list_find_absent _ a Habs).
    assert (a ≠ []) as Hne by (intros ->; by rewrite lookup_nil in Hcur).
    specialize (Hrange Hne). cbn [tabs active_index] in Hrange.
    eexists. split_and!; [done|by rewrite length_insert|].
    by rewrite set_in_range.
Qed.

Lemma REPLACE_TAB_activates_or_overwrites_witness :
  well_typed (abc 0) ∧ invariants (abc 0) ∧ absent "/d" (abc 0)
  ∧ (createTabsReducer defaultConfig browser (abc 0) (REPLACE_TAB (T "/d"))).1
      = Normal (state_of [T "/d"; T "/b"; T "/c"] 0)
  ∧ (createTabsReducer defaultConfig browser (abc 0) (REPLACE_TAB b5)).1
      = Normal (abc 1).
Proof.
  assert (Hwt : well_typed (abc 0)) by concrete.
  assert (Hinv : invariants (abc 0)) by concrete.
  assert (Habs : absent "/d" (abc 0)) by (repeat constructor; by vm_compute).
  split_and!; [done..| |].
  - destruct (proj2 (REPLACE_TAB_activates_or_overwrites defaultConfig browser
                       (abc 0) (T "/d") Hwt Hinv) Habs (T "/a") eq_refl)
      as (newTabs & -> & _ & Hr).
    exact Hr.
  - exact (proj1 (REPLACE_TAB_activates_or_overwrites defaultConfig browser
                    (abc 0) b5 Hwt Hinv) 1%nat (T "/b") eq_refl eq_refl).
Defined.

(** C6 as the specification words it fails on the empty list.  The state
    satisfies the invariants and has no tab with the path, but it has no
    tab at [active_index] to overwrite either: the indexed write extends
    the list, which has one tab afterwards, not none. *)
Lemma REPLACE_TAB_on_empty_list :
  well_typed (state_of [] 0) ∧ invariants (state_of [] 0)
  ∧ absent "/a" (state_of [] 0)
  ∧ (createTabsReducer defaultConfig browser (state_of [] 0)
       (REPLACE_TAB (T "/a"))).1 = Normal (state_of [T "/a"] 0)
  ∧ length (tabs (state_of [T "/a"] 0)) ≠ length (tabs (state_of [] 0)).
Proof.
  split_and!.
  - split; [constructor | by vm_compute].
  - split; [by intros Hne | constructor].
  - constructor.
  - reflexivity.
  - discriminate.
Qed.

(** ** REORDER_TABS *)

(** C9. For every state that satisfies the invariants and every index
    [i] with [0 <= i < length(tabs)], REORDER_TABS(i, i) returns the same
    tab list, element for element, and sets [active_index = i]. *)
Theorem REORDER_TABS_same_index config host state i :
  well_typed state → invariants state →
  0 ≤ i < Array.length (tabs state) →
  (createTabsReducer config host state (REORDER_TABS i i)).1 =
    Normal {| tabs := tabs state; active_index := i |}.
Proof.
  intros [Ha _] _ Hi. destruct state as [a x]. cbn [tabs] in *.
  unfold Array.length in Hi.
  destruct (lookup_lt_is_Some_2 a (Z.to_nat i)) as [s Hs]; [lia|].
  unfold createTabsReducer. rewrite <- (Z2Nat.id i) at 1 2 by lia.
  rewrite (transition_REORDER_TABS_in_range a x _ _ s Ha Hs) by lia.
  cbn [fst]. rewrite Z2Nat.id by lia. do 2 f_equal.
  rewrite delete_take_drop.
  rewrite take_app_length', drop_app_length' by (rewrite length_take; lia).
  by apply take_drop_middle.
Qed.

Lemma REORDER_TABS_same_index_witness :
  well_typed (abc 0) ∧ invariants (abc 0) ∧
  (createTabsReducer defaultConfig browser (abc 0) (REORDER_TABS 2 2)).1
    = Normal (abc 2).
Proof.
  assert (Hwt : well_typed (abc 0)) by concrete.
  assert (Hinv : invariants (abc 0)) by concrete.
  split_and!; [done..|].
  exact (REORDER_TABS_same_index defaultConfig browser (abc 0) 2 Hwt Hinv
           ltac:(concrete)).
Defined.

(** ** Persistence *)

Lemma not_absent_found p (a : list Slot) x :
  ¬ absent p {| tabs := a; active_index := x |} →
  ∃ i s, list_find (has_path p) a = Some (i, s).
Proof.
  intros Hn. destruct (list_find (has_path p) a) as [[i s]|] eqn:Hf; [eauto|].
  destruct Hn. by apply list_find_None in Hf.
Qed.

(** Without a [window] the reducer calls no host function at all. *)
Lemma createTabsReducer_no_window config host state action :
  window host = false → (createTabsReducer config host state action).2 = [].
Proof.
  intros Hw. unfold createTabsReducer, persist. rewrite Hw.
  by destruct (transition state action) as [[|newState]|e].
Qed.

(** C7. In a host with a [window], the reducer writes both storage keys
    (the tab list, then the active index, of the new state) after every
    command branch that produces a state, and calls no host function on
    the no-op branches (CLOSE_TAB with an absent path or a single
    remaining tab; CLOSE_OTHER_TABS, SET_ACTIVE_TAB or UPDATE_TAB_PARAMS
    with an absent path), which return the input state. *)
Theorem persistence_after_state_producing_branches config host state action :
  well_typed state → window host = true →
  (no_op state action →
     createTabsReducer config host state action = (Normal state, []))
  ∧ (¬ no_op state action →
     ∃ newState,
       createTabsReducer config host state action =
         (Normal newState,
          [ sessionStorage_setItem (storageKey config)
              (JSON_stringify (tabs newState));
            sessionStorage_setItem (activeTabStorageKey config)
              (String_of_number (active_index newState)) ])).
Proof.
  intros [Ha _] Hw. destruct state as [a x]. cbn [tabs] in Ha.
  unfold createTabsReducer, persist. rewrite Hw.
  destruct action as [t|t|p|p|p|i j|p ps]; cbn [no_op tabs].
  - rewrite transition_ADD_TAB by done. split; [done|eauto].
  - rewrite transition_REPLACE_TAB by done. split; [done|eauto].
  - rewrite transition_CLOSE_TAB by done. split.
    + intros [Habs|Hlen]; [by rewrite (list_find_absent _ a Habs)|].
      destruct (list_find _ a) as [[c s]|]; [|done]. by rewrite Hlen.
    + intros Hn.
      destruct (not_absent_found p a x) as (c & s & Hf); [tauto|]. rewrite Hf.
      pose proof (list_find_lt _ _ _ _ Hf) as Hlt.
      rewrite (proj2 (Z.ltb_ge _ _)); [eauto|].
      unfold Array.length in *. lia.
  - rewrite transition_CLOSE_OTHER_TABS by done. split.
    + intros Habs. by rewrite (list_find_absent _ a Habs).
    + intros (c & s & ->)%not_absent_found. eauto.
  - rewrite transition_SET_ACTIVE_TAB by done. split.
    + intros Habs. by rewrite (list_find_absent _ a Habs).
    + intros (c & s & ->)%not_absent_found. eauto.
  - split; [done|]. intros _. cbn [transition].
    repeat match goal with |- context [Array.splice ?i ?n ?l ?b] =>
      destruct (Array.splice i n l b) end. eauto.
  - rewrite transition_UPDATE_TAB_PARAMS by done. split.
    + intros Habs. by rewrite (list_find_absent _ a Habs).
    + intros (c & s & Hf)%not_absent_found. rewrite Hf.
      apply list_find_Some in Hf as (Hc & _ & _).
      destruct (is_tab_inv _ (Forall_lookup_1 _ _ _ _ Ha Hc)) as [t0 ->]. eauto.
Qed.

Lemma persistence_after_state_producing_branches_witness :
  well_typed (abc 0) ∧ window browser = true
  ∧ createTabsReducer defaultConfig browser (abc 0) (SET_ACTIVE_TAB "/zzz")
    = (Normal (abc 0), []).
Proof.
  assert (Hwt : well_typed (abc 0)) by concrete.
  split_and!; [done..|].
  apply (proj1 (persistence_after_state_producing_branches defaultConfig
                  browser (abc 0) (SET_ACTIVE_TAB "/zzz") Hwt eq_refl)).
  repeat constructor; by intros [=].
Defined.



(** ** The invariants along the reducer *)

Section Preservation.
Implicit Types (a : list Slot) (l : list Tab) (x : Z) (t : Tab) (p : string).

Lemma list_find_of_tabs p l i s :
  list_find (has_path p) (of_tabs l) = Some (i, s) →
  ∃ t0, s = elem (tab t0) ∧ l !! i = Some t0 ∧ path t0 = p.
Proof.
  intros (Hi & Hs & _)%list_find_Some. unfold of_tabs in Hi.
  rewrite list_lookup_fmap in Hi.
  destruct (l !! i) as [t0|]; simplify_eq/=. eauto.
Qed.

Lemma list_find_of_tabs_None p l :
  list_find (has_path p) (of_tabs l) = None → p ∉ path <$> l.
Proof.
  intros Hf%list_find_None (t0 & -> & Hin)%list_elem_of_fmap.
  rewrite Forall_forall in Hf. apply (Hf (elem (tab t0))); [|done].
  unfold of_tabs. apply list_elem_of_fmap. eauto.
Qed.

Lemma invariants_of_tabs l x :
  (l ≠ [] → 0 ≤ x < Z.of_nat (length l)) → NoDup (path <$> l) →
  invariants {| tabs := of_tabs l; active_index := x |}.
Proof.
  intros Hr Hnd. split.
  - unfold active_in_range, Array.length, of_tabs. cbn [tabs active_index].
    rewrite length_fmap. intros Hne. apply Hr. by intros ->.
  - unfold unique_paths. cbn [tabs]. by rewrite tabs_of_of_tabs.
Qed.

Lemma paths_insert_same l i t0 t :
  l !! i = Some t0 → path t0 = path t →
  path <$> <[i := t]> l = path <$> l.
Proof.
  intros Hi Hp. rewrite list_fmap_insert. apply list_insert_id.
  by rewrite list_lookup_fmap, Hi, <- Hp.
Qed.

Lemma NoDup_insert_fresh (l : list string) i q :
  NoDup l → q ∉ l → NoDup (<[i := q]> l).
Proof.
  intros Hnd Hq. destruct (decide (i < length l)%nat) as [Hi|Hi].
  - rewrite insert_take_drop by done. apply NoDup_app. split_and!.
    + eapply sublist_NoDup; [done|apply sublist_take].
    + intros y Hy [->|Hy']%elem_of_cons.
      * apply Hq. eapply elem_of_sublist; [done|apply sublist_take].
      * rewrite <- (take_drop i l) in Hnd. apply NoDup_app in Hnd as (_ & Hd & _).
        apply (Hd y Hy). eapply elem_of_sublist; [done|].
        rewrite <- (Nat.add_1_r i), <- drop_drop. apply sublist_drop.
    + apply NoDup_cons. split.
      * intros Hin. apply Hq. eapply elem_of_sublist; [done|apply sublist_drop].
      * eapply sublist_NoDup; [done|apply sublist_drop].
  - by rewrite list_insert_ge by lia.
Qed.

Lemma tabs_of_holes n t :
  tabs_of (replicate n hole ++ [elem (tab t)]) = [t].
Proof. induction n; simpl; done. Qed.

Lemma of_tabs_insert l i t :
  <[i := elem (tab t)]> (of_tabs l) = of_tabs (<[i := t]> l).
Proof. unfold of_tabs. by rewrite list_fmap_insert. Qed.

Lemma of_tabs_delete l i : delete i (of_tabs l) = of_tabs (delete i l).
Proof. unfold of_tabs. by rewrite list_fmap_delete. Qed.

Lemma of_tabs_length l : Array.length (of_tabs l) = Z.of_nat (length l).
Proof. unfold Array.length, of_tabs. by rewrite length_fmap. Qed.

Lemma of_tabs_nil l : of_tabs l = [] ↔ l = [].
Proof. unfold of_tabs. destruct l; simpl; split; congruence. Qed.

(** What is left to show once the new state is the state of a list of
    tabs. *)
Lemma preserved_by_list (r : Completion TabsState * list HostCall) l l' x' :
  r.1 = Normal (state_of l' x') →
  (l' ≠ [] → 0 ≤ x' < Z.of_nat (length l')) → NoDup (path <$> l') →
  (l ≠ [] → l' ≠ []) →
  ∃ newState,
    r.1 = Normal newState ∧ invariants newState
    ∧ (of_tabs l ≠ [] → Forall is_tab (tabs newState) ∧ tabs newState ≠ []).
Proof.
  intros Hr Hx Hnd Hne. eexists. split; [done|]. split.
  - by apply invariants_of_tabs.
  - intros Hl. cbn [tabs state_of]. split; [apply Forall_is_tab_of_tabs|].
    rewrite of_tabs_nil in *. auto.
Qed.

(** Every command keeps the invariants when REORDER_TABS gets indices
    inside the list; a state that has a tab keeps having one, and its
    slots keep holding tabs. *)
Lemma invariants_preserved config host state action :
  well_typed state → invariants state → reorder_in_range state action →
  ∃ newState,
    (createTabsReducer config host state action).1 = Normal newState
    ∧ invariants newState
    ∧ (tabs state ≠ [] →
       Forall is_tab (tabs newState) ∧ tabs newState ≠ []).
Proof.
  intros [Ha Hlen] Hinv Hre. destruct state as [a x]. cbn [tabs] in *.
  rewrite <- (of_tabs_tabs_of a Ha) in *. set (l := tabs_of a) in *. clearbody l.
  clear Ha. pose proof (Forall_is_tab_of_tabs l) as Ha.
  destruct Hinv as [Hr Hnd]. unfold active_in_range, unique_paths in *.
  cbn [tabs active_index] in *. rewrite tabs_of_of_tabs in Hnd.
  rewrite of_tabs_length in *.
  assert (Hr' : l ≠ [] → 0 ≤ x < Z.of_nat (length l)).
  { intros Hl. apply Hr. by rewrite of_tabs_nil. }
  clear Hr. unfold createTabsReducer.
  destruct action as [t|t|p|p|p|i j|p ps].
  - (* ADD_TAB *)
    rewrite transition_ADD_TAB by done.
    destruct (list_find _ (of_tabs l)) as [[i s]|] eqn:Hf.
    + destruct (list_find_of_tabs _ _ _ _ Hf) as (t0 & -> & Hi & Hp).
      pose proof (lookup_lt_Some _ _ _ Hi).
      rewrite of_tabs_insert. eapply (preserved_by_list _ l (<[i := t]> l)); [reflexivity|..].
      * rewrite length_insert. lia.
      * by rewrite (paths_insert_same l i t0 t).
      * intros Hl Hl'. apply (f_equal length) in Hl'.
        rewrite length_insert in Hl'. by destruct l.
    + rewrite of_tabs_length.
      replace (of_tabs l ++ [elem (tab t)]) with (of_tabs (l ++ [t]))
        by (unfold of_tabs; by rewrite fmap_app).
      eapply (preserved_by_list _ l (l ++ [t])); [reflexivity|..].
      * rewrite length_app. simpl. lia.
      * rewrite fmap_app. apply NoDup_app. split_and!; [done| |].
        -- intros q Hq ->%list_elem_of_singleton.
           by apply (list_find_of_tabs_None _ _ Hf).
        -- apply NoDup_singleton.
      * intros _. by destruct l.
  - (* REPLACE_TAB *)
    rewrite transition_REPLACE_TAB by done.
    destruct (list_find _ (of_tabs l)) as [[i s]|] eqn:Hf.
    + destruct (list_find_of_tabs _ _ _ _ Hf) as (t0 & -> & Hi & Hp).
      pose proof (lookup_lt_Some _ _ _ Hi).
      eapply (preserved_by_list _ l l); [reflexivity|..]; [lia|done..].
    + destruct (decide (l = [])) as [->|Hl].
      * cbn [of_tabs fmap list_fmap fst]. eexists. split; [done|].
        split; [|done]. unfold Array.set, Array.length. cbn [length].
        destruct ((0 <=? x) && (x <? 2 ^ 32 - 1)) eqn:Hx;
          [|split; [done|constructor]].
        apply andb_prop in Hx as [Hx1%Z.leb_le Hx2%Z.ltb_lt].
        rewrite (proj2 (Z.ltb_ge x _)) by (simpl; lia). split.
        -- intros _. unfold Array.length. cbn [tabs active_index].
           rewrite app_nil_l, length_app, length_replicate. simpl. lia.
        -- unfold unique_paths. cbn [tabs]. rewrite app_nil_l, tabs_of_holes.
           apply NoDup_singleton.
      * specialize (Hr' Hl).
        rewrite set_in_range by (rewrite of_tabs_length; lia).
        rewrite of_tabs_insert.
        eapply (preserved_by_list _ l (<[Z.to_nat x := t]> l)); [reflexivity|..].
        -- rewrite length_insert. lia.
        -- rewrite list_fmap_insert. apply NoDup_insert_fresh; [done|].
           by apply list_find_of_tabs_None.
        -- intros _ Hl'. apply (f_equal length) in Hl'.
           rewrite length_insert in Hl'. by destruct l.
  - (* CLOSE_TAB *)
    rewrite transition_CLOSE_TAB by done.
    assert (∃ newState,
      Normal (A:=TabsState) (state_of l x) = Normal newState ∧ invariants newState
      ∧ (of_tabs l ≠ [] → Forall is_tab (tabs newState) ∧ tabs newState ≠ []))
      as Hsame.
    { apply (preserved_by_list (Normal (state_of l x), []) l l x eq_refl); done. }
    destruct (list_find _ (of_tabs l)) as [[c s]|] eqn:Hf; [|done].
    rewrite of_tabs_length. destruct (Z.ltb_spec (Z.of_nat (length l)) 2); [done|].
    destruct (list_find_of_tabs _ _ _ _ Hf) as (t0 & -> & Hc & Hp).
    pose proof (lookup_lt_Some _ _ _ Hc) as Hlt.
    assert (Hl : l ≠ []) by (by destruct l).
    specialize (Hr' Hl). cbn zeta. rewrite !of_tabs_delete, of_tabs_length.
    assert (Hd : length (delete c l) = (length l - 1)%nat).
    { by rewrite length_delete by (by apply lookup_lt_is_Some_2). }
    rewrite Hd.
    eapply (preserved_by_list _ l (delete c l)); [reflexivity|..].
    + rewrite Hd. intros _. zbool; lia.
    + eapply sublist_NoDup; [done|]. apply fmap_sublist, sublist_delete.
    + intros _ Hl'. apply (f_equal length) in Hl'. rewrite Hd in Hl'.
      simpl in Hl'. lia.
  - (* CLOSE_OTHER_TABS *)
    rewrite transition_CLOSE_OTHER_TABS by done.
    destruct (list_find _ (of_tabs l)) as [[c s]|] eqn:Hf.
    + destruct (list_find_of_tabs _ _ _ _ Hf) as (t0 & -> & Hc & Hp).
      eapply (preserved_by_list _ l [t0]); [reflexivity|..]; [simpl; lia| |done].
      apply NoDup_singleton.
    + eapply (preserved_by_list _ l l); [reflexivity|..]; done.
  - (* SET_ACTIVE_TAB *)
    rewrite transition_SET_ACTIVE_TAB by done.
    destruct (list_find _ (of_tabs l)) as [[c s]|] eqn:Hf.
    + destruct (list_find_of_tabs _ _ _ _ Hf) as (t0 & -> & Hc & Hp).
      pose proof (lookup_lt_Some _ _ _ Hc).
      eapply (preserved_by_list _ l l); [reflexivity|..]; [lia|done..].
    + eapply (preserved_by_list _ l l); [reflexivity|..]; done.
  - (* REORDER_TABS *)
    destruct Hre as [Hi Hj]. cbn [tabs] in Hi, Hj.
    rewrite of_tabs_length in Hi, Hj.
    destruct (lookup_lt_is_Some_2 l (Z.to_nat i)) as [t0 Ht0]; [lia|].
    rewrite <- (Z2Nat.id i), <- (Z2Nat.id j) by lia.
    rewrite (transition_REORDER_TABS_in_range _ _ _ _ (elem (tab t0)) Ha).
    2:{ unfold of_tabs. by rewrite list_lookup_fmap, Ht0. }
    2:{ unfold of_tabs. rewrite length_fmap. lia. }
    set (n := Z.to_nat i) in *. set (m := Z.to_nat j) in *.
    replace (take m (delete n (of_tabs l)) ++
               elem (tab t0) :: drop m (delete n (of_tabs l)))
      with (of_tabs (take m (delete n l) ++ t0 :: drop m (delete n l))).
    2:{ unfold of_tabs.
        by rewrite fmap_app, fmap_cons, fmap_take, fmap_drop, list_fmap_delete. }
    assert (take m (delete n l) ++ t0 :: drop m (delete n l) ≡ₚ l) as Hperm.
    { rewrite <- Permutation_middle, take_drop.
      symmetry. by apply delete_Permutation. }
    eapply (preserved_by_list _ l _); [reflexivity|..].
    + intros _. rewrite Hperm. lia.
    + by rewrite Hperm.
    + intros _ Hl'. by destruct (take m (delete n l)).
  - (* UPDATE_TAB_PARAMS *)
    rewrite transition_UPDATE_TAB_PARAMS by done.
    destruct (list_find _ (of_tabs l)) as [[c s]|] eqn:Hf.
    + destruct (list_find_of_tabs _ _ _ _ Hf) as (t0 & -> & Hc & Hp).
      pose proof (lookup_lt_Some _ _ _ Hc).
      rewrite of_tabs_insert.
      eapply (preserved_by_list _ l (<[c := with_params ps t0]> l)); [reflexivity|..].
      * rewrite length_insert. lia.
      * by rewrite (paths_insert_same l c t0).
      * intros Hl Hl'. apply (f_equal length) in Hl'.
        rewrite length_insert in Hl'. by destruct l.
    + eapply (preserved_by_list _ l l); [reflexivity|..]; done.
Qed.

End Preservation.

(** ** REORDER_TABS with an index outside the list *)

(** REORDER_TABS never throws and never returns the state as it is: it
    ends with [break], and [active_index] is [toIndex] as given. *)
Lemma REORDER_TABS_activates_toIndex state fromIndex toIndex :
  ∃ newTabs,
    transition state (REORDER_TABS fromIndex toIndex) =
      Normal (Break {| tabs := newTabs; active_index := toIndex |}).
Proof.
  cbn [transition].
  repeat match goal with |- context [Array.splice ?i ?n ?l ?b] =>
    destruct (Array.splice i n l b) end. eauto.
Qed.

Lemma splice_insert_length start v (b : list Slot) :
  length (Array.splice start 0 [v] b).2 = S (length b).
Proof.
  unfold Array.splice, Array.length. cbn [snd fmap list_fmap].
  rewrite !length_app, length_take, length_drop. simpl.
  destruct (Z.ltb_spec start 0); lia.
Qed.

Lemma splice_remove_length start (b : list Slot) :
  0 ≤ start < Array.length b →
  length (Array.splice start 1 [] b).2 = (length b - 1)%nat.
Proof.
  unfold Array.splice, Array.length. intros Hs. cbn [snd fmap list_fmap].
  rewrite !length_app, length_take, length_drop. simpl.
  rewrite (proj2 (Z.ltb_ge start 0)) by lia. lia.
Qed.

(** With [fromIndex] inside the list and [toIndex] outside, the list keeps
    its length and [active_index] is not an index of it. *)
Lemma REORDER_TABS_toIndex_outside state fromIndex toIndex :
  0 ≤ fromIndex < Array.length (tabs state) →
  toIndex < 0 ∨ Array.length (tabs state) ≤ toIndex →
  ∃ newState,
    transition state (REORDER_TABS fromIndex toIndex) = Normal (Break newState)
    ∧ length (tabs newState) = length (tabs state)
    ∧ ¬ active_in_range newState.
Proof.
  intros Hi Hj. cbn [transition].
  assert (Array.length (Array.spread (tabs state)) = Array.length (tabs state)) as Hs.
  { unfold Array.length, Array.spread. by rewrite length_map. }
  pose proof (splice_remove_length fromIndex (Array.spread (tabs state))) as Hrem.
  rewrite Hs in Hrem. specialize (Hrem Hi).
  destruct (Array.splice fromIndex 1 [] _) as [removed rest]. cbn [snd] in Hrem.
  pose proof (splice_insert_length toIndex (Array.first removed) rest) as Hins.
  destruct (Array.splice toIndex 0 [_] rest) as [none newTabs]. cbn [snd] in Hins.
  assert (length newTabs = length (tabs state)) as Hlen.
  { unfold Array.length, Array.spread in *. rewrite length_map in Hrem. lia. }
  eexists. split; [done|]. split; [done|].
  unfold active_in_range, Array.length in *. cbn [tabs active_index].
  rewrite Hlen. intros Hr. destruct newTabs; [simpl in Hlen; lia|].
  specialize (Hr ltac:(done)). lia.
Qed.

(** With [fromIndex] at or beyond the end of the list nothing is removed,
    and [undefined] is put into the list. *)
Lemma REORDER_TABS_fromIndex_beyond state fromIndex toIndex :
  Array.length (tabs state) ≤ fromIndex →
  ∃ newState,
    transition state (REORDER_TABS fromIndex toIndex) = Normal (Break newState)
    ∧ elem undefined ∈ tabs newState.
Proof.
  intros Hi. cbn [transition]. unfold Array.splice at 1.
  assert (Array.length (Array.spread (tabs state)) = Array.length (tabs state)) as Hs.
  { unfold Array.length, Array.spread. by rewrite length_map. }
  rewrite Hs. pose proof (Nat2Z.is_nonneg (length (tabs state))) as Hn.
  fold (Array.length (tabs state)) in Hn.
  rewrite (proj2 (Z.ltb_ge fromIndex 0)) by lia.
  rewrite (Z.min_r fromIndex), Z.sub_diag, (Z.max_l 1 0), (Z.min_r 1 0) by lia.
  change (Z.to_nat 0) with 0%nat. cbn [take Array.first]. unfold Array.splice.
  eexists. split; [done|]. cbn [tabs fmap list_fmap].
  apply elem_of_app. right. apply elem_of_cons. by left.
Qed.

(** C1 at REORDER_TABS(0, 5) on three tabs.  The state satisfies both
    invariants; the reducer moves the first tab to the end and returns
    [active_index = 5], which is not an index of the three tabs. *)
Theorem REORDER_TABS_out_of_range_breaks_invariants :
  well_typed (abc 0) ∧ invariants (abc 0)
  ∧ (createTabsReducer defaultConfig browser (abc 0) (REORDER_TABS 0 5)).1
      = Normal (state_of [T "/b"; T "/c"; T "/a"] 5)
  ∧ ¬ invariants (state_of [T "/b"; T "/c"; T "/a"] 5).
Proof.
  split_and!; [concrete|concrete|done|].
  intros [Hr _]. specialize (Hr ltac:(done)). vm_compute in Hr.
  by destruct Hr as [_ [=]].
Qed.

(** C3 at REORDER_TABS(5, 0) and REORDER_TABS(0, 5) on three tabs.  With
    [fromIndex] outside the list nothing is removed and [undefined] is
    inserted at the front; with [toIndex] outside the list the tab is
    moved to the end and [active_index] is 5.  Both results differ from
    the input and are written to storage, and on the first one the next
    command that looks a path up throws a TypeError. *)
Theorem REORDER_TABS_out_of_range_is_not_a_no_op :
  createTabsReducer defaultConfig browser (abc 0) (REORDER_TABS 5 0)
    = (Normal {| tabs := elem undefined :: tabs (abc 0); active_index := 0 |},
       [ sessionStorage_setItem "tabrouter-tabs"
           (JSON_stringify (elem undefined :: tabs (abc 0)));
         sessionStorage_setItem "tabrouter-active-tab" (String_of_number 0) ])
  ∧ createTabsReducer defaultConfig browser (abc 0) (REORDER_TABS 0 5)
    = (Normal (state_of [T "/b"; T "/c"; T "/a"] 5),
       [ sessionStorage_setItem "tabrouter-tabs"
           (JSON_stringify (of_tabs [T "/b"; T "/c"; T "/a"]));
         sessionStorage_setItem "tabrouter-active-tab" (String_of_number 5) ])
  ∧ (createTabsReducer defaultConfig browser
       {| tabs := elem undefined :: tabs (abc 0); active_index := 0 |}
       (SET_ACTIVE_TAB "/a")).1 = Throw TypeError.
Proof. split_and!; reflexivity. Qed.

(** ** The JSON parser never runs out of fuel *)

Module JSON_fuel.
Import JSON.

Abbreviation len := String.length.

Lemma skip_ws_len s : (len (skip_ws s) ≤ len s)%nat.
Proof.
  induction s as [|c s IH]; simpl; [done|].
  destruct (is_ws c); simpl; lia.
Qed.

Lemma eat_len c s r : eat c s = Some r → len s = S (len r).
Proof.
  destruct s as [|d s]; simpl; [done|].
  destruct (Ascii.eqb d c); intros ?; by simplify_eq.
Qed.

Lemma after_len p s r : after p s = Some r → (len r + len p = len s)%nat.
Proof.
  revert s. induction p as [|c p IH]; intros [|d s]; simpl; try done.
  - intros ?; simplify_eq/=. lia.
  - intros ?; simplify_eq/=. lia.
  - destruct (Ascii.eqb c d); [|done]. intros H%IH. lia.
Qed.

Lemma digits_from_len acc n s v k r :
  Lex.digits_from acc n s = (v, k, r) → (len r + k = len s + n)%nat.
Proof.
  revert acc n. induction s as [|c s IH]; intros acc n; simpl.
  - intros [= <- <- <-]. simpl. lia.
  - destruct (Lex.is_digit c).
    + intros H%IH. lia.
    + intros [= <- <- <-]. simpl. lia.
Qed.

Lemma number_len s n r : number s = Parsed n r → (len r < len s)%nat.
Proof.
  unfold number, Lex.digits. intros H.
  repeat match type of H with
  | context [eat ?c ?x] =>
      let E := fresh "E" in
      destruct (eat c x) eqn:E; [apply eat_len in E|clear E]
  | context [Lex.digits_from ?a ?k ?x] =>
      let E := fresh "E" in
      destruct (Lex.digits_from a k x) as [[? []] ?] eqn:E;
      apply digits_from_len in E
  end; simplify_eq; lia.
Qed.

Lemma chars_len s us r : chars s = Parsed us r → (len r < len s)%nat.
Proof.
  assert (∀ n s us r, (len s ≤ n)%nat → chars s = Parsed us r →
                      (len r < len s)%nat) as H; [|by eauto].
  clear. induction n as [|n IH]; intros s us r Hn Hc.
  { destruct s; simpl in *; [done|lia]. }
  destruct s as [|c s]; simpl in Hc; [done|].
  destruct (Ascii.eqb c quote). { simplify_eq. simpl. lia. }
  destruct (Ascii.eqb c "\").
  - destruct s as [|e s1]; [done|]. destruct (Ascii.eqb e "u").
    + destruct s1 as [|h1 [|h2 [|h3 [|h4 r2]]]]; try done.
      destruct (hex4 h1 h2 h3 h4); [|done].
      destruct (chars r2) eqn:E; try done. simplify_eq.
      apply IH in E; simpl in *; lia.
    + destruct (escape e); [|done].
      destruct (chars s1) eqn:E; try done. simplify_eq.
      apply IH in E; simpl in *; lia.
  - destruct (N_of_ascii c <? 32)%N; [done|].
    destruct (chars s) eqn:E; try done. simplify_eq.
    apply IH in E; simpl in *; lia.
Qed.

Lemma chars_fuel s : chars s ≠ OutOfFuel.
Proof.
  assert (∀ n s, (len s ≤ n)%nat → chars s ≠ OutOfFuel) as H; [|by eauto].
  clear. induction n as [|n IH]; intros s Hn.
  { by destruct s; simpl in *; [|lia]. }
  destruct s as [|c s]; simpl; [done|].
  repeat case_match; done.
Qed.

Lemma literal_len s v r : literal s = Parsed v r → (len r < len s)%nat.
Proof.
  unfold literal. intros H.
  repeat match type of H with
  | context [after ?p ?x] =>
      let E := fresh "E" in
      destruct (after p x) eqn:E; [apply after_len in E|clear E]
  end; simplify_eq; simpl in *; lia.
Qed.

Lemma value_S fuel s :
  value (S fuel) s =
    match skip_ws s with
    | EmptyString => Invalid
    | String c r as s' =>
        if Ascii.eqb c "{" then
          match eat "}" (skip_ws r) with
          | Some r' => Parsed (JObject []) r'
          | None =>
              match members fuel (skip_ws r) with
              | Parsed ms r' => Parsed (JObject ms) r'
              | Invalid => Invalid
              | OutOfFuel => OutOfFuel
              end
          end
        else if Ascii.eqb c "[" then
          match eat "]" (skip_ws r) with
          | Some r' => Parsed (JArray []) r'
          | None =>
              match elements fuel (skip_ws r) with
              | Parsed vs r' => Parsed (JArray vs) r'
              | Invalid => Invalid
              | OutOfFuel => OutOfFuel
              end
          end
        else if Ascii.eqb c quote then
          match chars r with
          | Parsed us r' => Parsed (JString us) r'
          | _ => Invalid
          end
        else if Ascii.eqb c "-" || Lex.is_digit c then
          match number s' with
          | Parsed n r' => Parsed (JNumber n) r'
          | _ => Invalid
          end
        else literal s'
    end.
Proof. done. Qed.

Lemma elements_S fuel s :
  elements (S fuel) s =
    match value fuel s with
    | Parsed v r =>
        match eat "]" (skip_ws r), eat "," (skip_ws r) with
        | Some r', _ => Parsed [v] r'
        | None, Some r' =>
            match elements fuel r' with
            | Parsed vs r'' => Parsed (v :: vs) r''
            | Invalid => Invalid
            | OutOfFuel => OutOfFuel
            end
        | None, None => Invalid
        end
    | Invalid => Invalid
    | OutOfFuel => OutOfFuel
    end.
Proof. done. Qed.

Lemma members_S fuel s :
  members (S fuel) s =
    match eat quote (skip_ws s) with
    | None => Invalid
    | Some r =>
        match chars r with
        | Parsed key r1 =>
            match eat ":" (skip_ws r1) with
            | None => Invalid
            | Some r2 =>
                match value fuel r2 with
                | Parsed v r3 =>
                    match eat "}" (skip_ws r3), eat "," (skip_ws r3) with
                    | Some r4, _ => Parsed [(key, v)] r4
                    | None, Some r4 =>
                        match members fuel r4 with
                        | Parsed ms r5 => Parsed ((key, v) :: ms) r5
                        | Invalid => Invalid
                        | OutOfFuel => OutOfFuel
                        end
                    | None, None => Invalid
                    end
                | Invalid => Invalid
                | OutOfFuel => OutOfFuel
                end
            end
        | _ => Invalid
        end
    end.
Proof. done. Qed.

(** What the successful sub-parses and the skipped white space say
    about lengths. *)
Ltac lengths :=
  repeat match goal with
  | H : eat _ _ = Some _ |- _ => apply eat_len in H
  | H : chars _ = Parsed _ _ |- _ => apply chars_len in H
  | H : number _ = Parsed _ _ |- _ => apply number_len in H
  | H : literal _ = Parsed _ _ |- _ => apply literal_len in H
  end;
  repeat match goal with
  | H : context [skip_ws ?x] |- _ =>
      lazymatch goal with
      | _ : (len (skip_ws x) ≤ len x)%nat |- _ => fail
      | _ => pose proof (skip_ws_len x)
      end
  end;
  repeat match goal with
  | H : skip_ws ?x = _ |- _ => rewrite H in *
  end;
  simpl in *.

Ltac cases H :=
  repeat (cbv zeta in H;
          match type of H with
          | context [match ?x with _ => _ end] =>
              let E := fresh "E" in destruct x eqn:E
          end);
  try discriminate H; try (injection H as <- <-).

(** Every successful parse consumes at least one character. *)
Lemma parse_len fuel :
  (∀ s v r, value fuel s = Parsed v r → (len r < len s)%nat)
  ∧ (∀ s v r, elements fuel s = Parsed v r → (len r < len s)%nat)
  ∧ (∀ s v r, members fuel s = Parsed v r → (len r < len s)%nat).
Proof.
  induction fuel as [|fuel (IHv & IHe & IHm)]; [done|].
  split_and!; intros s v r H.
  - rewrite value_S in H. cases H;
      repeat match goal with
      | H : members _ _ = Parsed _ _ |- _ => apply IHm in H
      | H : elements _ _ = Parsed _ _ |- _ => apply IHe in H
      end; lengths; lia.
  - rewrite elements_S in H. cases H;
      repeat match goal with
      | H : value _ _ = Parsed _ _ |- _ => apply IHv in H
      | H : elements _ _ = Parsed _ _ |- _ => apply IHe in H
      end; lengths; lia.
  - rewrite members_S in H. cases H;
      repeat match goal with
      | H : value _ _ = Parsed _ _ |- _ => apply IHv in H
      | H : members _ _ = Parsed _ _ |- _ => apply IHm in H
      end; lengths; lia.
Qed.

(** Twice the length of the text, and one or two more, is fuel
    enough. *)
Lemma parse_fuel fuel :
  (∀ s, (2 * len s + 1 ≤ fuel)%nat → value fuel s ≠ OutOfFuel)
  ∧ (∀ s, (2 * len s + 2 ≤ fuel)%nat → elements fuel s ≠ OutOfFuel)
  ∧ (∀ s, (2 * len s + 2 ≤ fuel)%nat → members fuel s ≠ OutOfFuel).
Proof.
  induction fuel as [|fuel (IHv & IHe & IHm)].
  { split_and!; intros s Hs; lia. }
  destruct (parse_len fuel) as (Lv & Le & Lm).
  split_and!; intros s Hs H.
  - rewrite value_S in H. unfold literal in H. cases H;
      match goal with
      | H : members _ _ = OutOfFuel |- _ => apply IHm in H; [done|]
      | H : elements _ _ = OutOfFuel |- _ => apply IHe in H; [done|]
      end; lengths; lia.
  - rewrite elements_S in H. cases H;
      repeat match goal with
      | H : value _ _ = Parsed _ _ |- _ => apply Lv in H
      end;
      match goal with
      | H : value _ _ = OutOfFuel |- _ => apply IHv in H; [done|]
      | H : elements _ _ = OutOfFuel |- _ => apply IHe in H; [done|]
      end; lengths; lia.
  - rewrite members_S in H. cases H;
      repeat match goal with
      | H : value _ _ = Parsed _ _ |- _ => apply Lv in H
      end;
      match goal with
      | H : value _ _ = OutOfFuel |- _ => apply IHv in H; [done|]
      | H : members _ _ = OutOfFuel |- _ => apply IHm in H; [done|]
      end; lengths; lia.
Qed.

(** [JSON.parse] gives its verdict with fuel to spare: the parser it
    runs never reports [OutOfFuel]. *)
Lemma value_fuel text :
  value (2 * String.length text + 2) text ≠ OutOfFuel.
Proof. apply parse_fuel. lia. Qed.

End JSON_fuel.

(** ** The host functions on sample texts *)

Module Samples.

Example Number_of_integers :
  Number "7" = Decimal false 7 0 ∧ Number " 12 " = Decimal false 12 0
  ∧ Number "-0" = Decimal true 0 0 ∧ Number "0x1F" = Decimal false 31 0.
Proof. by vm_compute. Qed.

Example Number_of_fractions :
  Number "1.5e3" = Decimal false 15 2 ∧ Number ".5" = Decimal false 5 (-1)
  ∧ Number "1." = Decimal false 1 0 ∧ Number "-Infinity" = Infinity true.
Proof. by vm_compute. Qed.

Example Number_of_other_text :
  Forall (λ text, Number text = NaN)
    ["abc"; "."; "1e"; "+-1"; "12px"; "0x"; "0b102"; "1 2"; "Infinit"].
Proof. repeat constructor. Qed.

Example Number_blank : Number "" = Decimal false 0 0 ∧ Number "  " = Decimal false 0 0.
Proof. by vm_compute. Qed.

Example falsy_numbers :
  Forall (λ text, falsy_number (Number text) = true)
    ["0"; "-0"; "0.000"; "x"; "1e-400"; "2.4e-324"]
  ∧ Forall (λ text, falsy_number (Number text) = false)
      ["7"; "-1"; "2.5e-324"; "5e-324"; "Infinity"].
Proof. split; repeat constructor. Qed.

Example parse_values :
  JSON.parse "[]" = Normal (JArray []) ∧ JSON.parse " [ ] " = Normal (JArray [])
  ∧ JSON.parse "{}" = Normal (JObject []) ∧ JSON.parse "null" = Normal JNull
  ∧ JSON.parse "[1, 2.5e3,true ,null]"
    = Normal (JArray [JNumber (Decimal false 1 0); JNumber (Decimal false 25 2);
                      JBool true; JNull])
  ∧ JSON.parse "[[[]],{}]" = Normal (JArray [JArray [JArray []]; JObject []]).
Proof. by vm_compute. Qed.

Example parse_tabs :
  JSON.parse ("[{" +:+ q +:+ "path" +:+ q +:+ ":" +:+ q +:+ "/aA" +:+ q +:+ ", "
              +:+ q +:+ "params" +:+ q +:+ " : { " +:+ q +:+ "id" +:+ q +:+ ":5}} ]")
  = Normal (JArray
      [JObject [(units "path", JString (units "/aA"));
                (units "params",
                 JObject [(units "id", JNumber (Decimal false 5 0))])]]).
Proof. by vm_compute. Qed.

Example parse_rejects :
  Forall (λ text, JSON.parse text = Throw SyntaxError)
    [""; "{"; "01"; "[1,]"; "-"; "tru"; "true false"; "1."; ".5"; "1e+";
     "[1 2]"; "{a:1}"; q +:+ "a"; q +:+ "a\x" +:+ q; q +:+ "\u12" +:+ q;
     "{" +:+ q +:+ "a" +:+ q +:+ ":1,}"].
Proof. repeat constructor. Qed.

Example initial_state_of_stored_values :
  getInitialState defaultConfig browser = Normal (default_state defaultConfig)
  ∧ getInitialState defaultConfig server = Normal (default_state defaultConfig)
  ∧ getInitialState defaultConfig
      (stored (Some ("[{" +:+ q +:+ "path" +:+ q +:+ ":" +:+ q +:+ "/a" +:+ q +:+ "},{"
                     +:+ q +:+ "path" +:+ q +:+ ":" +:+ q +:+ "/b" +:+ q +:+ "}]"))
              (Some "1"))
    = Normal {| initial_tabs :=
                  JArray [JObject [(units "path", JString (units "/a"))];
                          JObject [(units "path", JString (units "/b"))]];
                initial_active_index := Decimal false 1 0 |}.
Proof. by vm_compute. Qed.

End Samples.

(** ** The initial state *)

(** The fallbacks the code has.  [getInitialState] returns the
    single-tab default state when there is no [window], or when the
    stored tab list is absent, empty or parses to a falsy value and the
    stored active index is absent, empty or converts to NaN or zero. *)
Theorem getInitialState_falls_back config host :
  window host = false
  ∨ (tabs_unusable (getItem host (storageKey config))
     ∧ index_unusable (getItem host (activeTabStorageKey config))) →
  getInitialState config host = Normal (default_state config).
Proof.
  unfold getInitialState, tabs_unusable, index_unusable, default_state.
  intros [->|[Ht Hi]]; [done|]. destruct (window host); [|done]. cbn [negb].
  destruct (getItem host (storageKey config)) as [[|c text]|];
    destruct (getItem host (activeTabStorageKey config)) as [[|d number]|];
    try done;
    repeat match goal with
    | H : ∃ v, _ ∧ _ |- _ => destruct H as (v & -> & ->)
    | H : falsy_number _ = true |- _ => rewrite H
    end; done.
Qed.

Lemma getInitialState_falls_back_witness :
  (window (stored (Some "null") (Some "x")) = false
   ∨ (tabs_unusable
        (getItem (stored (Some "null") (Some "x")) (storageKey defaultConfig))
      ∧ index_unusable
          (getItem (stored (Some "null") (Some "x"))
             (activeTabStorageKey defaultConfig))))
  ∧ getInitialState defaultConfig (stored (Some "null") (Some "x"))
    = Normal (default_state defaultConfig).
Proof.
  assert (Ht : tabs_unusable
                 (getItem (stored (Some "null") (Some "x")) (storageKey defaultConfig))).
  { exists JNull. by vm_compute. }
  assert (Hi : index_unusable
                 (getItem (stored (Some "null") (Some "x"))
                    (activeTabStorageKey defaultConfig))).
  { by vm_compute. }
  split; [by right|].
  exact (getInitialState_falls_back defaultConfig _ (or_intror (conj Ht Hi))).
Defined.

(** Each field falls back on its own: an unusable tab list gives the
    default tab list without an exception, and an unusable index gives
    [active_index = 0] whenever a state is returned. *)
Lemma getInitialState_falls_back_by_field config host :
  (tabs_unusable (getItem host (storageKey config)) →
   ∃ n, getInitialState config host
        = Normal {| initial_tabs := JArray [initialTab config];
                    initial_active_index := n |})
  ∧ (index_unusable (getItem host (activeTabStorageKey config)) →
     ∀ st, getInitialState config host = Normal st →
           initial_active_index st = Decimal false 0 0).
Proof.
  unfold getInitialState, tabs_unusable, index_unusable.
  destruct (window host); cbn [negb]; [|split; [eauto|by intros _ st [= <-]]].
  split.
  - destruct (getItem host (storageKey config)) as [[|c text]|]; [eauto| |eauto].
    intros (v & -> & ->). eauto.
  - intros Hi st.
    destruct (getItem host (storageKey config)) as [[|c text]|];
      try destruct (JSON.parse _); try done;
      destruct (getItem host (activeTabStorageKey config)) as [[|d number]|];
      try rewrite Hi; by intros [= <-].
Qed.

(** Without a [window] the default state is returned. *)
Lemma getInitialState_no_window config host :
  window host = false → getInitialState config host = Normal (default_state config).
Proof. unfold getInitialState. by intros ->. Qed.

(** No value read from storage is validated: a [SyntaxError] of
    [JSON.parse] escapes, a truthy parsed value becomes [tabs] whatever it
    is, and a number that is neither zero nor NaN becomes [active_index]
    whatever the tabs are. *)
Lemma getInitialState_unvalidated config host c text :
  window host = true →
  getItem host (storageKey config) = Some (String c text) →
  (JSON.parse (String c text) = Throw SyntaxError →
   getInitialState config host = Throw SyntaxError)
  ∧ (∀ v, JSON.parse (String c text) = Normal v → truthy v = true →
     ∃ n, getInitialState config host
          = Normal {| initial_tabs := v; initial_active_index := n |}
        ∧ ∀ d number,
            getItem host (activeTabStorageKey config) = Some (String d number) →
            falsy_number (Number (String d number)) = false →
            n = Number (String d number)).
Proof.
  intros Hw Hs. unfold getInitialState. rewrite Hw, Hs. cbn [negb]. split.
  - by intros ->.
  - intros v -> ->. eexists. split; [done|]. by intros d number -> ->.
Qed.

(** C2 at the stored tab lists [{], [{}] and [[]] and the stored index
    [7], each on the default configuration.  None of them gives the
    single-tab default state: the unparseable tab list makes
    [getInitialState] throw a SyntaxError; the object and the empty array
    are truthy and are returned as [tabs]; the index beyond the single
    default tab is returned as [active_index]. *)
Theorem getInitialState_malformed_not_default :
  getInitialState defaultConfig (stored (Some "{") None) = Throw SyntaxError
  ∧ getInitialState defaultConfig (stored (Some "{}") None)
    = Normal {| initial_tabs := JObject [];
                initial_active_index := Decimal false 0 0 |}
  ∧ getInitialState defaultConfig (stored (Some "[]") None)
    = Normal {| initial_tabs := JArray [];
                initial_active_index := Decimal false 0 0 |}
  ∧ getInitialState defaultConfig (stored None (Some "7"))
    = Normal {| initial_tabs := JArray [initialTab defaultConfig];
                initial_active_index := Decimal false 7 0 |}
  ∧ Forall (λ host, getInitialState defaultConfig host
                    ≠ Normal (default_state defaultConfig))
      [ stored (Some "{") None; stored (Some "{}") None;
        stored (Some "[]") None; stored None (Some "7") ].
Proof.
  split_and!; [by vm_compute..|].
  repeat constructor; by vm_compute.
Qed.

(** ** The Link component *)

Lemma some_tabs p (a : list Slot) :
  Forall is_tab a →
  Array.some (path_is p) a = Normal (bool_decide (Exists (has_path p) a)).
Proof.
  induction 1 as [|s a Hs _ IH]; [done|].
  apply is_tab_inv in Hs as [t ->]. cbn [Array.some path_is].
  destruct (decide (path t = p)) as [Hp|Hp].
  - rewrite (bool_decide_eq_true_2 _ Hp).
    by rewrite bool_decide_eq_true_2 by (by left).
  - rewrite (bool_decide_eq_false_2 _ Hp), IH.
    apply f_equal, bool_decide_ext. rewrite Exists_cons. simpl. tauto.
Qed.

(** C8. For every click that the Link component handles (default not
    prevented and no modifier key held when the handler looks at the
    event), exactly one router operation is invoked: [push] when the
    target is ["_blank"]; otherwise [replace] when the replace flag is
    set; otherwise [switchToPath] when the destination path is in the tab
    list; otherwise [push]. *)
Theorem click_invokes_one_operation search_params props tabs host e :
  Forall is_tab tabs →
  Link.defaultPrevented (Link.seen props e) = false →
  Link.metaKey (Link.seen props e) = false →
  Link.ctrlKey (Link.seen props e) = false →
  Link.shiftKey (Link.seen props e) = false →
  Link.altKey (Link.seen props e) = false →
  let parsed := Link.parsedHref search_params (Link.href props) in
  ∃ effects,
    Link.click search_params props tabs host e = Normal effects
    ∧ Link.router_calls effects =
        [ if bool_decide (Link.target props = Some "_blank")
          then Link.push (Link.destination parsed)
          else if Link.replace props
          then Link.replaceTab (Link.destination parsed)
          else if bool_decide (Exists (has_path (Link.parsed_path parsed)) tabs)
          then Link.switchToPath (Link.parsed_path parsed)
          else Link.push (Link.destination parsed) ].
Proof.
  intros Ht Hd Hm Hc Hs Ha parsed. unfold Link.click, Link.tabExists.
  fold parsed. rewrite some_tabs by done. eexists. split; [done|].
  unfold Link.handleClick, Link.shouldSwitchToExisting. fold (Link.seen props e).
  rewrite Hd, Hm, Hc, Hs, Ha. cbn [orb].
  destruct (bool_decide (Link.target props = Some "_blank")); [done|].
  destruct (Link.replace props),
    (bool_decide (Exists (has_path (Link.parsed_path parsed)) tabs));
    cbn [andb negb]; try done;
    by destruct (negb (bool_decide (Link.parsed_hash parsed = "")) && window host).
Qed.

Lemma click_invokes_one_operation_witness :
  ∃ effects,
    Link.click (λ _, ∅)
      {| Link.href := Link.href_string "/b#top"; Link.replace := false;
         Link.target := None; Link.onClick := None |}
      (tabs (abc 0)) browser
      {| Link.defaultPrevented := false; Link.metaKey := false;
         Link.ctrlKey := false; Link.shiftKey := false; Link.altKey := false |}
    = Normal effects
    ∧ Link.router_calls effects = [Link.switchToPath "/b"].
Proof.
  exact (click_invokes_one_operation (λ _, ∅)
    {| Link.href := Link.href_string "/b#top"; Link.replace := false;
       Link.target := None; Link.onClick := None |}
    (tabs (abc 0)) browser
    {| Link.defaultPrevented := false; Link.metaKey := false;
       Link.ctrlKey := false; Link.shiftKey := false; Link.altKey := false |}
    ltac:(repeat constructor) eq_refl eq_refl eq_refl eq_refl eq_refl).
Defined.

(** ** The scenarios of the specification, run on the model *)

Module Scenarios.

Example open_then_open_duplicate :
  (createTabsReducer defaultConfig browser (state_of [T "/"] 0)
     (ADD_TAB (T "/a"))).1
    = Normal (state_of [T "/"; T "/a"] 1)
  ∧ (createTabsReducer defaultConfig browser (state_of [T "/"; T "/a"] 1)
       (ADD_TAB {| path := "/a"; params := Some {[ "id" := PNumber 5 ]} |})).1
    = Normal (state_of
        [T "/"; {| path := "/a"; params := Some {[ "id" := PNumber 5 ]} |}] 1).
Proof. split; reflexivity. Qed.

Example close_middle_tab :
  (createTabsReducer defaultConfig browser (abc 2) (CLOSE_TAB "/b")).1
    = Normal (state_of [T "/a"; T "/c"] 1).
Proof. reflexivity. Qed.

Example close_active_tab :
  (createTabsReducer defaultConfig browser (abc 1) (CLOSE_TAB "/b")).1
    = Normal (state_of [T "/a"; T "/c"] 1).
Proof. reflexivity. Qed.

Example reorder :
  (createTabsReducer defaultConfig browser (abc 0) (REORDER_TABS 0 2)).1
    = Normal (state_of [T "/b"; T "/c"; T "/a"] 2).
Proof. reflexivity. Qed.

Example nothing_written_on_the_server :
  createTabsReducer defaultConfig server (abc 0) (SET_ACTIVE_TAB "/c")
    = (Normal (abc 2), []).
Proof. reflexivity. Qed.

End Scenarios.





(** * Further properties: runs of the reducer, the hooks, the Link *)

(** ** Runs of the reducer *)

(** X1. From a state that has a tab, holds tabs only and satisfies the
    invariants, every state reached by dispatches inside the reducer's
    preconditions is such a state again, and the reducer does not throw
    on it. *)
Theorem valid_states_stay_valid config host state state' :
  valid state → rtc (step config host) state state' →
  valid state'
  ∧ ∀ action, reorder_in_range state' action →
      ∃ newState,
        (createTabsReducer config host state' action).1 = Normal newState.
Proof.
  intros Hv Hsteps.
  assert (valid state') as Hv'.
  { induction Hsteps as [|s1 s2 s3 (action & Hre & Hr & Hlen) _ IH]; [done|].
    apply IH. destruct Hv as (Hwt & Hne & Hinv).
    destruct (invariants_preserved config host s1 action Hwt Hinv Hre)
      as (s2' & Hr' & Hinv' & Hkeep).
    rewrite Hr in Hr'. injection Hr' as <-.
    destruct (Hkeep Hne) as [Ha' Hne']. by split_and!; [split|..]. }
  split; [done|]. intros action Hre. destruct Hv' as (Hwt & _ & Hinv).
  destruct (invariants_preserved config host state' action Hwt Hinv Hre)
    as (newState & Hr & _). eauto.
Qed.

Lemma valid_states_stay_valid_witness :
  valid (abc 0)
  ∧ rtc (step defaultConfig browser) (abc 0)
      (state_of [T "/a"; T "/b"; T "/c"; T "/d"] 3)
  ∧ valid (state_of [T "/a"; T "/b"; T "/c"; T "/d"] 3).
Proof.
  assert (Hv : valid (abc 0)).
  { split_and!; [concrete|done|concrete]. }
  assert (Hs : rtc (step defaultConfig browser) (abc 0)
                 (state_of [T "/a"; T "/b"; T "/c"; T "/d"] 3)).
  { apply rtc_once. exists (ADD_TAB (T "/d")). split_and!; [done|done|by vm_compute]. }
  split_and!; [done..|].
  exact (proj1 (valid_states_stay_valid defaultConfig browser _ _ Hv Hs)).
Defined.

Lemma dispatch_all_cons config host state action rest :
  (dispatch_all config host state (action :: rest)).1 =
    match (createTabsReducer config host state action).1 with
    | Normal newState => (dispatch_all config host newState rest).1
    | Throw e => Throw e
    end.
Proof.
  cbn [dispatch_all].
  destruct (createTabsReducer config host state action) as [[newState|e] calls];
    [|done].
  cbn [fst]. by destruct (dispatch_all config host newState rest).
Qed.

Lemma dispatch_all_one config host state action :
  (dispatch_all config host state [action]).1
    = (createTabsReducer config host state action).1.
Proof.
  rewrite dispatch_all_cons.
  by destruct (createTabsReducer config host state action) as [[newState|e] calls].
Qed.

Lemma reducer_fst config host state action :
  (createTabsReducer config host state action).1 =
    match transition state action with
    | Throw e => Throw e
    | Normal Return_state => Normal state
    | Normal (Break newState) => Normal newState
    end.
Proof.
  unfold createTabsReducer. by destruct (transition state action) as [[|?]|?].
Qed.

(** ** The branches the claims leave out *)

Lemma active_at (a : list Slot) (i : nat) t :
  a !! i = Some (elem (tab t)) →
  Router.active {| tabs := a; active_index := Z.of_nat i |} = Some t.
Proof.
  intros Hi. unfold Router.active, array_read. cbn [tabs active_index].
  rewrite (proj2 (Z.leb_le 0 _)) by lia. by rewrite Nat2Z.id, Hi.
Qed.

(** X2. CLOSE_OTHER_TABS(p) on a state that satisfies the invariants:
    when a tab has path [p], the new list holds that tab alone, as it
    was, and it is active at index 0; when none has, the state is
    returned as it is and nothing is written. *)
Theorem CLOSE_OTHER_TABS_keeps_one config host state p :
  well_typed state → invariants state →
  (∀ (i : nat) t,
     tabs state !! i = Some (elem (tab t)) → path t = p →
     (createTabsReducer config host state (CLOSE_OTHER_TABS p)).1
       = Normal {| tabs := [elem (tab t)]; active_index := 0 |})
  ∧ (absent p state →
     createTabsReducer config host state (CLOSE_OTHER_TABS p)
       = (Normal state, [])).
Proof.
  intros [Ha _] [_ Hnd]. destruct state as [a x]. unfold createTabsReducer.
  rewrite (transition_CLOSE_OTHER_TABS a x p Ha). cbn [tabs active_index] in *.
  split.
  - intros i t Hi Hp. by rewrite (list_find_unique p a i t Ha Hnd Hi Hp).
  - intros Habs. by rewrite (list_find_absent p a Habs).
Qed.

Lemma CLOSE_OTHER_TABS_keeps_one_witness :
  well_typed (abc 2) ∧ invariants (abc 2) ∧
  (createTabsReducer defaultConfig browser (abc 2) (CLOSE_OTHER_TABS "/b")).1
    = Normal (state_of [T "/b"] 0).
Proof.
  assert (Hwt : well_typed (abc 2)) by concrete.
  assert (Hinv : invariants (abc 2)) by concrete.
  split_and!; [done..|].
  exact (proj1 (CLOSE_OTHER_TABS_keeps_one defaultConfig browser (abc 2) "/b"
                  Hwt Hinv) 1%nat (T "/b") eq_refl eq_refl).
Defined.

(** X3. UPDATE_TAB_PARAMS(p, params) on a state that satisfies the
    invariants: when a tab has path [p] at index [i], its params become
    the payload's (the empty object for an absent payload), with nothing
    of the old params kept; its path and every other tab stay, and the
    tab becomes the active one, so that [query] is the payload.  When no
    tab has path [p] the state is returned as it is and nothing is
    written. *)
Theorem UPDATE_TAB_PARAMS_replaces_params config host state p ps :
  well_typed state → invariants state →
  (∀ (i : nat) t,
     tabs state !! i = Some (elem (tab t)) → path t = p →
     ∃ newState,
       (createTabsReducer config host state (UPDATE_TAB_PARAMS p ps)).1
         = Normal newState
       ∧ tabs newState
           = <[i := elem (tab {| path := p; params := Some (default ∅ ps) |})]>
               (tabs state)
       ∧ active_index newState = Z.of_nat i
       ∧ Router.query newState = default ∅ ps)
  ∧ (absent p state →
     createTabsReducer config host state (UPDATE_TAB_PARAMS p ps)
       = (Normal state, [])).
Proof.
  intros [Ha _] [_ Hnd]. destruct state as [a x]. unfold createTabsReducer.
  rewrite (transition_UPDATE_TAB_PARAMS a x p ps Ha). cbn [tabs active_index] in *.
  split.
  - intros i t Hi <-. rewrite (list_find_unique _ a i t Ha Hnd Hi eq_refl).
    eexists. split_and!; [done..|]. unfold Router.query.
    rewrite (active_at _ i (with_params ps t)); [done|].
    apply list_lookup_insert_eq. by eapply lookup_lt_Some.
  - intros Habs. by rewrite (list_find_absent p a Habs).
Qed.

Lemma UPDATE_TAB_PARAMS_replaces_params_witness :
  well_typed (state_of [T "/a"; b5] 0) ∧ invariants (state_of [T "/a"; b5] 0) ∧
  (createTabsReducer defaultConfig browser (state_of [T "/a"; b5] 0)
     (UPDATE_TAB_PARAMS "/b" (Some {[ "tab" := PString "x" ]}))).1
    = Normal (state_of [T "/a";
        {| path := "/b"; params := Some {[ "tab" := PString "x" ]} |}] 1).
Proof.
  assert (Hwt : well_typed (state_of [T "/a"; b5] 0)) by concrete.
  assert (Hinv : invariants (state_of [T "/a"; b5] 0)) by concrete.
  split_and!; [done..|].
  destruct (proj1 (UPDATE_TAB_PARAMS_replaces_params defaultConfig browser
                     (state_of [T "/a"; b5] 0) "/b"
                     (Some {[ "tab" := PString "x" ]}) Hwt Hinv)
              1%nat b5 eq_refl eq_refl) as ([a x] & -> & Ha & Hx & _).
  cbn [tabs active_index] in Ha, Hx. by rewrite Ha, Hx.
Defined.

(** ** REORDER_TABS inside the list *)

Lemma move_spec {A} (a : list A) (n m : nat) s :
  a !! n = Some s → (m < length a)%nat →
  let b := take m (delete n a) ++ s :: drop m (delete n a) in
  b !! m = Some s ∧ delete m b = delete n a ∧ b ≡ₚ a
  ∧ take n (delete m b) ++ s :: drop n (delete m b) = a.
Proof.
  intros Hn Hm b. pose proof (lookup_lt_Some _ _ _ Hn) as Hlt.
  assert (length (delete n a) = (length a - 1)%nat) as Hd.
  { apply length_delete. by apply lookup_lt_is_Some_2. }
  assert (length (take m (delete n a)) = m) as Ht.
  { rewrite length_take. lia. }
  assert (delete m b = delete n a) as Hdel.
  { unfold b. rewrite <- Ht at 1. by rewrite delete_middle, take_drop. }
  split_and!; [|done| |].
  - unfold b. rewrite <- Ht at 1. apply list_lookup_middle. done.
  - unfold b. rewrite <- Permutation_middle, take_drop.
    symmetry. by apply delete_Permutation.
  - rewrite Hdel, delete_take_drop.
    rewrite take_app_length', drop_app_length' by (rewrite length_take; lia).
    by apply take_drop_middle.
Qed.

(** X4. REORDER_TABS(fromIndex, toIndex) with both indices inside the
    list moves one tab and nothing else: the tab that was at [fromIndex]
    is at [toIndex] and is the active one, the other tabs keep their
    relative order, and the new list is a permutation of the old. *)
Theorem REORDER_TABS_moves_one_tab config host state fromIndex toIndex :
  well_typed state →
  0 ≤ fromIndex < Array.length (tabs state) →
  0 ≤ toIndex < Array.length (tabs state) →
  ∃ newTabs,
    (createTabsReducer config host state (REORDER_TABS fromIndex toIndex)).1
      = Normal {| tabs := newTabs; active_index := toIndex |}
    ∧ newTabs !! Z.to_nat toIndex = tabs state !! Z.to_nat fromIndex
    ∧ delete (Z.to_nat toIndex) newTabs
        = delete (Z.to_nat fromIndex) (tabs state)
    ∧ newTabs ≡ₚ tabs state.
Proof.
  intros [Ha _] Hn Hm. destruct state as [a x]. cbn [tabs] in *.
  unfold Array.length in Hn, Hm.
  destruct (lookup_lt_is_Some_2 a (Z.to_nat fromIndex)) as [s Hs]; [lia|].
  destruct (move_spec a (Z.to_nat fromIndex) (Z.to_nat toIndex) s Hs)
    as (Hat & Hdel & Hperm & _); [lia|].
  eexists. unfold createTabsReducer.
  rewrite <- (Z2Nat.id fromIndex) at 1 by lia.
  rewrite <- (Z2Nat.id toIndex) at 1 by lia.
  rewrite (transition_REORDER_TABS_in_range a x _ _ s Ha Hs) by lia.
  cbn [fst]. rewrite Z2Nat.id by lia. split_and!; [done| | |]; [|done..].
  by rewrite Hs.
Qed.

Lemma REORDER_TABS_moves_one_tab_witness :
  well_typed (abc 0) ∧
  ∃ newTabs,
    (createTabsReducer defaultConfig browser (abc 0) (REORDER_TABS 0 2)).1
      = Normal {| tabs := newTabs; active_index := 2 |}
    ∧ newTabs !! 2%nat = Some (elem (tab (T "/a"))).
Proof.
  assert (Hwt : well_typed (abc 0)) by concrete.
  split; [done|].
  destruct (REORDER_TABS_moves_one_tab defaultConfig browser (abc 0) 0 2 Hwt
              ltac:(concrete) ltac:(concrete)) as (newTabs & Hr & Hat & _).
  exists newTabs. split; [exact Hr | exact Hat].
Defined.

Lemma there_and_back config host (a : list Slot) x (n m : nat) :
  Forall is_tab a → (n < length a)%nat → (m < length a)%nat →
  (dispatch_all config host {| tabs := a; active_index := x |}
     [REORDER_TABS (Z.of_nat n) (Z.of_nat m);
      REORDER_TABS (Z.of_nat m) (Z.of_nat n)]).1
    = Normal {| tabs := a; active_index := Z.of_nat n |}.
Proof.
  intros Ha Hn Hm.
  destruct (lookup_lt_is_Some_2 a n Hn) as [s Hs].
  destruct (move_spec a n m s Hs Hm) as (Hat & Hdel & Hperm & Hback).
  rewrite dispatch_all_cons, reducer_fst.
  rewrite (transition_REORDER_TABS_in_range a x _ _ s Ha Hs) by lia.
  rewrite dispatch_all_one, reducer_fst.
  rewrite (transition_REORDER_TABS_in_range _ _ _ _ s); [| |done|].
  - by rewrite Hback.
  - by rewrite Hperm.
  - rewrite Hperm. lia.
Qed.

(** X5. Moving a tab and moving it back restores the list: after
    REORDER_TABS(i, j) and then REORDER_TABS(j, i), both indices inside
    the list, the tab list is the one before, element for element, and
    the tab at [i] is active. *)
Theorem REORDER_TABS_there_and_back config host state i j :
  well_typed state →
  0 ≤ i < Array.length (tabs state) → 0 ≤ j < Array.length (tabs state) →
  (dispatch_all config host state [REORDER_TABS i j; REORDER_TABS j i]).1
    = Normal {| tabs := tabs state; active_index := i |}.
Proof.
  intros [Ha _] Hn Hm. destruct state as [a x]. cbn [tabs] in *.
  unfold Array.length in Hn, Hm.
  replace i with (Z.of_nat (Z.to_nat i)) by lia.
  replace j with (Z.of_nat (Z.to_nat j)) by lia.
  apply there_and_back; [done|lia..].
Qed.

Lemma REORDER_TABS_there_and_back_witness :
  well_typed (abc 1) ∧
  (dispatch_all defaultConfig browser (abc 1)
     [REORDER_TABS 0 2; REORDER_TABS 2 0]).1 = Normal (abc 0).
Proof.
  assert (Hwt : well_typed (abc 1)) by concrete.
  split; [done|].
  exact (REORDER_TABS_there_and_back defaultConfig browser (abc 1) 0 2 Hwt
           ltac:(concrete) ltac:(concrete)).
Defined.

(** ** Opening a tab and closing it again *)

(** X6. ADD_TAB(t) for a path that no tab has, followed by CLOSE_TAB of
    that path, on a list that has a tab: the tab list is the one before,
    and the last tab of the list is active, not the tab that was active
    before.  On an empty list the tab opened stays, as CLOSE_TAB never
    closes the only tab. *)
Theorem ADD_TAB_then_CLOSE_TAB config host state t :
  well_typed state → absent (path t) state →
  (dispatch_all config host state [ADD_TAB t; CLOSE_TAB (path t)]).1
    = Normal (if decide (tabs state = [])
              then {| tabs := [elem (tab t)]; active_index := 0 |}
              else {| tabs := tabs state;
                      active_index := Array.length (tabs state) - 1 |}).
Proof.
  intros [Ha _] Habs. destruct state as [a x]. cbn [tabs] in *.
  rewrite dispatch_all_cons, reducer_fst, (transition_ADD_TAB a x t Ha).
  rewrite (list_find_absent _ a Habs).
  rewrite dispatch_all_one, reducer_fst, transition_CLOSE_TAB.
  2:{ apply Forall_app. split; [done|]. by repeat constructor. }
  rewrite (list_find_snoc _ a (elem (tab t))); [|by apply list_find_absent|done].
  unfold Array.length. rewrite length_app. cbn [length].
  case_decide as Hnil.
  - subst a. reflexivity.
  - assert (0 < length a)%nat by (destruct a; [done|simpl; lia]).
    rewrite (proj2 (Z.ltb_ge _ 2)) by lia. cbn zeta.
    replace (delete (length a) (a ++ [elem (tab t)])) with a
      by (by rewrite delete_middle, app_nil_r).
    rewrite Z.eqb_refl. do 2 f_equal. lia.
Qed.

Lemma ADD_TAB_then_CLOSE_TAB_witness :
  well_typed (abc 0) ∧ absent "/d" (abc 0) ∧
  (dispatch_all defaultConfig browser (abc 0)
     [ADD_TAB (T "/d"); CLOSE_TAB "/d"]).1 = Normal (abc 2).
Proof.
  assert (Hwt : well_typed (abc 0)) by concrete.
  assert (Habs : absent "/d" (abc 0)) by (repeat constructor; by vm_compute).
  split_and!; [done..|].
  exact (ADD_TAB_then_CLOSE_TAB defaultConfig browser (abc 0) (T "/d") Hwt Habs).
Defined.

(** ** A slot that holds no tab *)

Lemma findIndex_from_non_tab k p (before after : list Slot) s :
  Forall is_tab before → Forall (λ s, ¬ has_path p s) before → ¬ is_tab s →
  Array.findIndex_from k (path_is p) (before ++ s :: after) = Throw TypeError.
Proof.
  intros Hb Hp Hs. revert k Hp.
  induction Hb as [|s0 b Hs0 _ IH]; intros k Hp.
  - destruct s as [|[|t]]; [done..|]. by destruct Hs.
  - apply is_tab_inv in Hs0 as [t ->]. apply Forall_cons in Hp as [Hp0 Hp].
    cbn [app Array.findIndex_from Array.get path_is].
    rewrite bool_decide_eq_false_2 by done. by apply IH.
Qed.

Lemma find_non_tab p (before after : list Slot) s :
  Forall is_tab before → Forall (λ s, ¬ has_path p s) before → ¬ is_tab s →
  Array.find (path_is p) (before ++ s :: after) = Throw TypeError.
Proof.
  intros Hb Hp Hs. revert Hp.
  induction Hb as [|s0 b Hs0 _ IH]; intros Hp.
  - destruct s as [|[|t]]; [done..|]. by destruct Hs.
  - apply is_tab_inv in Hs0 as [t ->]. apply Forall_cons in Hp as [Hp0 Hp].
    cbn [app Array.find Array.get path_is].
    rewrite bool_decide_eq_false_2 by done. by apply IH.
Qed.

(** X7. A tab list with a slot that holds no tab ([undefined] or a hole,
    as REORDER_TABS leaves behind for a fromIndex outside the list) makes
    every command that looks a path up throw a TypeError, unless a tab
    before that slot has the path; nothing is written to the storage. *)
Theorem lookup_of_non_tab_throws config host state action p before s after :
  looks_up action = Some p →
  tabs state = before ++ s :: after →
  Forall is_tab before → absent p {| tabs := before; active_index := 0 |} →
  ¬ is_tab s →
  createTabsReducer config host state action = (Throw TypeError, []).
Proof.
  intros Hp Htabs Hb Habs Hs. unfold absent in Habs. cbn [tabs] in Habs.
  pose proof (findIndex_from_non_tab 0 p before after s Hb Habs Hs) as Hfi.
  pose proof (find_non_tab p before after s Hb Habs Hs) as Hf.
  unfold createTabsReducer, transition. rewrite Htabs.
  destruct action; simplify_eq/=; unfold Array.findIndex;
    by rewrite ?Hfi, ?Hf.
Qed.

Lemma lookup_of_non_tab_throws_witness :
  createTabsReducer defaultConfig browser
    {| tabs := [elem (tab (T "/a")); elem undefined; elem (tab (T "/b"))];
       active_index := 0 |}
    (SET_ACTIVE_TAB "/b") = (Throw TypeError, []).
Proof.
  apply (lookup_of_non_tab_throws defaultConfig browser _ _ "/b"
           [elem (tab (T "/a"))] (elem undefined) [elem (tab (T "/b"))]).
  - reflexivity.
  - reflexivity.
  - by repeat constructor.
  - repeat constructor. by vm_compute.
  - simpl. tauto.
Defined.

(** ** The hooks *)

Lemma or_root_not_empty p : Router.or_root p ≠ "".
Proof. unfold Router.or_root. by case_bool_decide. Qed.

Lemma pathname_not_empty state : Router.pathname state ≠ "".
Proof.
  unfold Router.pathname. destruct (Router.active state); [|done].
  apply or_root_not_empty.
Qed.

Lemma active_of_valid state :
  valid state →
  ∃ t, tabs state !! Z.to_nat (active_index state) = Some (elem (tab t))
       ∧ Router.active state = Some t.
Proof.
  intros ([Ha _] & Hne & [Hr _]). specialize (Hr Hne). destruct state as [a x].
  cbn [tabs active_index] in *. unfold Array.length in Hr.
  destruct (lookup_lt_is_Some_2 a (Z.to_nat x)) as [s Hs]; [lia|].
  destruct (is_tab_inv _ (Forall_lookup_1 _ _ _ _ Ha Hs)) as [t ->].
  exists t. split; [done|].
  rewrite <- (Z2Nat.id x) by lia. by apply active_at.
Qed.

(** X8. On a state that has a tab and satisfies the invariants the hooks
    always have an active tab: [active] is the tab at [active_index],
    never [null]; [pathname] is its path, ["/"] standing in for the empty
    path, so it is never the empty string; [query] is its params, the
    empty object when it has none. *)
Theorem hooks_show_the_active_tab state :
  valid state →
  ∃ t,
    tabs state !! Z.to_nat (active_index state) = Some (elem (tab t))
    ∧ Router.active state = Some t
    ∧ Router.pathname state = (if decide (path t = "") then "/" else path t)
    ∧ Router.pathname state ≠ ""
    ∧ Router.query state = default ∅ (params t).
Proof.
  intros Hv. destruct (active_of_valid state Hv) as (t & Ht & Hact).
  exists t. split_and!; [done..| | |].
  - unfold Router.pathname, Router.or_root. rewrite Hact.
    by case_bool_decide; case_decide.
  - apply pathname_not_empty.
  - unfold Router.query. by rewrite Hact.
Qed.

Lemma hooks_show_the_active_tab_witness :
  valid (state_of [T "/a"; b5] 1) ∧
  Router.pathname (state_of [T "/a"; b5] 1) = "/b" ∧
  Router.query (state_of [T "/a"; b5] 1) = {[ "id" := PNumber 5 ]}.
Proof.
  assert (Hv : valid (state_of [T "/a"; b5] 1)).
  { split_and!; [concrete|done|concrete]. }
  split; [done|].
  destruct (hooks_show_the_active_tab _ Hv) as (t & Ht & _ & Hp & _ & Hq).
  injection Ht as <-. split; [exact Hp | exact Hq].
Defined.

Lemma ADD_TAB_result config host state t :
  well_typed state →
  ∃ newState (i : nat),
    (createTabsReducer config host state (ADD_TAB t)).1 = Normal newState
    ∧ active_index newState = Z.of_nat i
    ∧ Forall is_tab (tabs newState)
    ∧ list_find (has_path (path t)) (tabs newState) = Some (i, elem (tab t)).
Proof.
  intros [Ha _]. destruct state as [a x]. cbn [tabs] in *.
  rewrite reducer_fst, (transition_ADD_TAB a x t Ha).
  destruct (list_find (has_path (path t)) a) as [[i s]|] eqn:Hf.
  - eexists _, i. split_and!; [done..| |].
    + by apply Forall_insert.
    + by eapply list_find_insert_same.
  - eexists _, (length a). split_and!; [done..| |].
    + apply Forall_app. split; [done|]. by repeat constructor.
    + by apply list_find_snoc.
Qed.

(** X9. [push(url)] on a well-typed state never throws, and in the
    state it gives the tab of the url is the active one: [pathname] is
    the url's path (["/"] for the empty path), [query] is the url's
    params, empty for a url given as a string or without params, and
    [getTabByPath] of that path gives the tab pushed. *)
Theorem push_shows_the_url config host state url :
  well_typed state →
  ∃ newState,
    (createTabsReducer config host state (Router.push url)).1 = Normal newState
    ∧ Router.active newState = Some (Router.payload url)
    ∧ Router.pathname newState
        = (if decide (Router.desiredPath url = "") then "/"
           else Router.desiredPath url)
    ∧ Router.query newState
        = match url with
          | Router.url_string _ => ∅
          | Router.url_object t => default ∅ (params t)
          end
    ∧ Router.getTabByPath newState (Router.desiredPath url)
        = Normal (tab (Router.payload url)).
Proof.
  intros Hwt.
  destruct (ADD_TAB_result config host state (Router.payload url) Hwt)
    as ([a' x'] & i & Hr & Hx & Ha' & Hf).
  cbn [tabs active_index] in *. subst x'.
  assert (Router.active {| tabs := a'; active_index := Z.of_nat i |}
            = Some (Router.payload url)) as Hact.
  { apply active_at. by apply list_find_Some in Hf as (? & _). }
  eexists. split_and!; [exact Hr|done| | |].
  - unfold Router.pathname, Router.or_root. rewrite Hact.
    cbn [Router.payload path]. by case_bool_decide; case_decide.
  - unfold Router.query. rewrite Hact. by destruct url.
  - unfold Router.getTabByPath. cbn [tabs].
    rewrite find_tabs by done. cbn [Router.payload path] in Hf. by rewrite Hf.
Qed.

Lemma push_shows_the_url_witness :
  well_typed (abc 0) ∧
  ∃ newState,
    (createTabsReducer defaultConfig browser (abc 0)
       (Router.push (Router.url_object b5))).1 = Normal newState
    ∧ Router.pathname newState = "/b"
    ∧ Router.query newState = {[ "id" := PNumber 5 ]}.
Proof.
  assert (Hwt : well_typed (abc 0)) by concrete.
  split; [done|].
  destruct (push_shows_the_url defaultConfig browser (abc 0)
              (Router.url_object b5) Hwt) as (newState & Hr & _ & Hp & Hq & _).
  exists newState. split_and!; [exact Hr | exact Hp | exact Hq].
Defined.

(** X10. [replace(url)] on a state that has a tab and satisfies the
    invariants keeps the number of tabs and makes [pathname] the url's
    path.  When no tab had that path, the active tab is the tab of the
    url; when a tab had it, that tab becomes active as it was, and the
    params of the url are dropped. *)
Theorem replace_shows_the_path config host state url :
  valid state →
  ∃ newState,
    (createTabsReducer config host state (Router.replace url)).1
      = Normal newState
    ∧ length (tabs newState) = length (tabs state)
    ∧ Router.pathname newState
        = (if decide (Router.desiredPath url = "") then "/"
           else Router.desiredPath url)
    ∧ (absent (Router.desiredPath url) state →
       Router.active newState = Some (Router.payload url))
    ∧ (∀ (i : nat) t0,
         tabs state !! i = Some (elem (tab t0)) →
         path t0 = Router.desiredPath url →
         Router.active newState = Some t0).
Proof.
  intros ([Ha Hlen] & Hne & [Hr Hnd]). specialize (Hr Hne).
  destruct state as [a x]. cbn [tabs active_index] in *.
  unfold Router.replace.
  rewrite reducer_fst, (transition_REPLACE_TAB a x _ Ha).
  cbn [Router.payload path].
  assert (∀ t, path t = Router.desiredPath url →
            (if bool_decide (path t = "") then "/" else path t)
            = (if decide (Router.desiredPath url = "") then "/"
               else Router.desiredPath url)) as Hroot.
  { intros t ->. by case_bool_decide; case_decide. }
  destruct (list_find _ a) as [[i s]|] eqn:Hf.
  - pose proof Hf as (Hi & Hs & _)%list_find_Some.
    destruct (is_tab_inv _ (Forall_lookup_1 _ _ _ _ Ha Hi)) as [t1 ->].
    simpl in Hs. pose proof (active_at a i t1 Hi) as Hact.
    eexists. split_and!; [done..| | |].
    + unfold Router.pathname, Router.or_root. rewrite Hact. by apply Hroot.
    + intros Habs. by rewrite (list_find_absent _ a Habs) in Hf.
    + intros j t0 Hj Hp. rewrite (list_find_unique _ a j t0 Ha Hnd Hj Hp) in Hf.
      by simplify_eq.
  - rewrite (set_in_range x _ a Hr Hlen).
    assert (Router.active
              {| tabs := <[Z.to_nat x := elem (tab (Router.payload url))]> a;
                 active_index := x |} = Some (Router.payload url)) as Hact.
    { rewrite <- (Z2Nat.id x) at 2 by lia. apply active_at.
      apply list_lookup_insert_eq. unfold Array.length in Hr. lia. }
    eexists. split_and!; [done| | | |].
    + cbn [tabs]. by rewrite length_insert.
    + unfold Router.pathname, Router.or_root. rewrite Hact. by apply Hroot.
    + done.
    + intros j t0 Hj Hp. apply list_find_None in Hf.
      by destruct (Forall_lookup_1 _ _ _ _ Hf Hj).
Qed.

Lemma replace_shows_the_path_witness :
  valid (state_of [T "/a"; b5] 0) ∧
  ∃ newState,
    (createTabsReducer defaultConfig browser (state_of [T "/a"; b5] 0)
       (Router.replace (Router.url_object (T "/b")))).1 = Normal newState
    ∧ Router.active newState = Some b5.
Proof.
  assert (Hv : valid (state_of [T "/a"; b5] 0)).
  { split_and!; [concrete|done|concrete]. }
  split; [done|].
  destruct (replace_shows_the_path defaultConfig browser _
              (Router.url_object (T "/b")) Hv) as (newState & Hr & _ & _ & _ & Hex).
  exists newState. split; [exact Hr|].
  exact (Hex 1%nat b5 eq_refl eq_refl).
Defined.

Lemma SET_ACTIVE_TAB_at config host (a : list Slot) x (i : nat) t :
  Forall is_tab a → NoDup (path <$> tabs_of a) →
  a !! i = Some (elem (tab t)) →
  (createTabsReducer config host {| tabs := a; active_index := x |}
     (SET_ACTIVE_TAB (path t))).1
    = Normal {| tabs := a; active_index := Z.of_nat i |}.
Proof.
  intros Ha Hnd Hi.
  rewrite reducer_fst, (transition_SET_ACTIVE_TAB a x _ Ha).
  by rewrite (list_find_unique _ a i t Ha Hnd Hi eq_refl).
Qed.

(** X11. [back()] of [useRouter] on a state that has a tab and satisfies
    the invariants: at index 0 it dispatches nothing; elsewhere, when the
    tab before the active one has a non-empty path, that tab becomes the
    active one and the tab list stays. *)
Theorem back_activates_the_previous_tab config host state :
  valid state →
  (active_index state = 0 → Router.back state = [])
  ∧ (∀ t,
       0 < active_index state →
       tabs state !! Z.to_nat (active_index state - 1) = Some (elem (tab t)) →
       path t ≠ "" →
       (dispatch_all config host state (Router.back state)).1
         = Normal {| tabs := tabs state;
                     active_index := active_index state - 1 |}).
Proof.
  intros ([Ha _] & _ & [_ Hnd]). destruct state as [a x].
  cbn [tabs active_index] in *. unfold Router.back. cbn [tabs active_index].
  split; [by intros ->|]. intros t Hx Ht Hp.
  rewrite (proj2 (Z.gtb_gt x 0)) by lia. unfold array_read.
  rewrite (proj2 (Z.leb_le 0 _)), Ht by lia. cbn [Array.get].
  unfold Router.or_root. rewrite bool_decide_eq_false_2 by done.
  rewrite dispatch_all_one. unfold Router.switchToPath.
  rewrite (SET_ACTIVE_TAB_at config host a x _ t Ha Hnd Ht).
  do 2 f_equal. lia.
Qed.

Lemma back_activates_the_previous_tab_witness :
  valid (abc 2) ∧
  (dispatch_all defaultConfig browser (abc 2) (Router.back (abc 2))).1
    = Normal (abc 1).
Proof.
  assert (Hv : valid (abc 2)).
  { split_and!; [concrete|done|concrete]. }
  split; [done|].
  exact (proj2 (back_activates_the_previous_tab defaultConfig browser (abc 2) Hv)
           (T "/b") ltac:(concrete) eq_refl ltac:(concrete)).
Defined.

(** X12. [reload()] of [useRouter] leaves a state that has a tab and
    satisfies the invariants as it is: it dispatches SET_ACTIVE_TAB for
    the path of the active tab, which finds that tab again, or nothing
    when that path is empty. *)
Theorem reload_keeps_the_state config host state :
  valid state →
  (dispatch_all config host state (Router.reload state)).1 = Normal state.
Proof.
  intros Hv. destruct (active_of_valid state Hv) as (t & Ht & Hact).
  destruct Hv as ([Ha _] & Hne & [Hr Hnd]). specialize (Hr Hne).
  unfold Router.reload. rewrite Hact. case_bool_decide; [done|].
  destruct state as [a x]. cbn [tabs active_index] in *.
  rewrite dispatch_all_one. unfold Router.switchToPath.
  rewrite (SET_ACTIVE_TAB_at config host a x _ t Ha Hnd Ht).
  do 2 f_equal. lia.
Qed.

Lemma reload_keeps_the_state_witness :
  valid (abc 1) ∧
  (dispatch_all defaultConfig browser (abc 1) (Router.reload (abc 1))).1
    = Normal (abc 1).
Proof.
  assert (Hv : valid (abc 1)).
  { split_and!; [concrete|done|concrete]. }
  split; [done|].
  exact (reload_keeps_the_state defaultConfig browser (abc 1) Hv).
Defined.

Lemma dispatch_all_single config host state action :
  dispatch_all config host state [action]
    = createTabsReducer config host state action.
Proof.
  cbn [dispatch_all].
  destruct (createTabsReducer config host state action) as [[newState|e] calls];
    [|done].
  by rewrite app_nil_r.
Qed.

(** X13. [switchToTab(p)] of [useTabs] and [switchToPath(p)] of
    [useTabRouter] do the same on a well-typed state, to the state and
    to the storage: the [tabs.find] guard of [switchToTab] holds back the
    dispatches that the reducer would answer with the state as it is. *)
Theorem switchToTab_is_switchToPath config host state p :
  well_typed state →
  ∃ actions,
    Router.switchToTab state p = Normal actions
    ∧ dispatch_all config host state actions
        = createTabsReducer config host state (Router.switchToPath p).
Proof.
  intros [Ha _]. destruct state as [a x]. cbn [tabs] in *.
  unfold Router.switchToTab, Router.switchToPath, createTabsReducer.
  cbn [tabs]. rewrite (find_tabs p a Ha), (transition_SET_ACTIVE_TAB a x p Ha).
  destruct (list_find (has_path p) a) as [[i s]|] eqn:Hf.
  - pose proof Hf as (Hi & _ & _)%list_find_Some.
    destruct (is_tab_inv _ (Forall_lookup_1 _ _ _ _ Ha Hi)) as [t ->].
    eexists. split; [done|]. rewrite dispatch_all_single.
    unfold createTabsReducer.
    by rewrite (transition_SET_ACTIVE_TAB a x p Ha), Hf.
  - by eexists.
Qed.

Lemma switchToTab_is_switchToPath_witness :
  well_typed (abc 0) ∧
  ∃ actions,
    Router.switchToTab (abc 0) "/c" = Normal actions
    ∧ (dispatch_all defaultConfig browser (abc 0) actions).1 = Normal (abc 2).
Proof.
  assert (Hwt : well_typed (abc 0)) by concrete.
  split; [done|].
  destruct (switchToTab_is_switchToPath defaultConfig browser (abc 0) "/c" Hwt)
    as (actions & Hs & Hd).
  exists actions. split; [exact Hs|]. by rewrite Hd.
Defined.

Lemma absent_of_tabs p (l : list Tab) :
  p ∉ path <$> l → Forall (λ s, ¬ has_path p s) (of_tabs l).
Proof.
  intros Hp. unfold of_tabs. apply Forall_fmap, Forall_forall.
  intros t Hin Ht. apply Hp. apply list_elem_of_fmap. by exists t.
Qed.

Lemma not_elem_of_delete (l : list string) (c : nat) p :
  NoDup l → l !! c = Some p → p ∉ delete c l.
Proof.
  intros Hnd Hc. rewrite <- (take_drop_middle l c p Hc) in Hnd.
  apply NoDup_app in Hnd as (_ & Hpre & Hnd). apply NoDup_cons in Hnd as [Hpost _].
  rewrite delete_take_drop. intros [Hin|Hin]%elem_of_app; [|done].
  apply (Hpre p Hin). by left.
Qed.

Lemma find_delete_other q (a : list Slot) (c : nat) t :
  Forall is_tab a → a !! c = Some (elem (tab t)) → path t ≠ q →
  Array.find (path_is q) (delete c a) = Array.find (path_is q) a.
Proof.
  intros Ha. revert c. induction Ha as [|s a Hs _ IH]; intros c Hc Hq; [done|].
  destruct c as [|c]; simplify_eq/=.
  - by rewrite bool_decide_eq_false_2.
  - apply is_tab_inv in Hs as [t0 ->]. cbn [Array.get path_is].
    case_bool_decide; [done|]. by apply IH.
Qed.

(** X14. [closePath(p)] on a state with two tabs or more that satisfies
    the invariants: afterwards [isTabOpen(p)] is false, and
    [getTabByPath] of every other path answers as before. *)
Theorem closePath_closes_the_path config host state p :
  well_typed state → invariants state → 2 ≤ Array.length (tabs state) →
  ∃ newState,
    (createTabsReducer config host state (Router.closePath p)).1
      = Normal newState
    ∧ Router.isTabOpen newState p = Normal false
    ∧ ∀ q, q ≠ p →
        Router.getTabByPath newState q = Router.getTabByPath state q.
Proof.
  intros [Ha _] [_ Hnd] Hlen. destruct state as [a x].
  unfold unique_paths in Hnd. cbn [tabs] in *. unfold Router.closePath.
  rewrite reducer_fst, (transition_CLOSE_TAB a x p Ha).
  unfold Router.isTabOpen, Router.getTabByPath.
  destruct (list_find (has_path p) a) as [[c s]|] eqn:Hf.
  - rewrite (proj2 (Z.ltb_ge _ 2)) by lia. cbn zeta.
    apply list_find_Some in Hf as (Hc & Hs & _).
    destruct (is_tab_inv _ (Forall_lookup_1 _ _ _ _ Ha Hc)) as [t ->].
    simpl in Hs. subst p. eexists. split_and!; [done| |]; cbn [tabs].
    + rewrite some_tabs by (by apply Forall_delete).
      apply f_equal, bool_decide_eq_false_2, Forall_Exists_neg.
      rewrite <- (of_tabs_tabs_of a Ha), of_tabs_delete.
      apply absent_of_tabs. rewrite list_fmap_delete.
      apply not_elem_of_delete; [done|].
      by rewrite list_lookup_fmap, (lookup_tabs_of a c t Ha Hc).
    + intros q Hq. by apply (find_delete_other q a c t).
  - eexists. split_and!; [done| |done]. cbn [tabs].
    rewrite some_tabs by done.
    apply f_equal, bool_decide_eq_false_2, Forall_Exists_neg.
    by apply list_find_None in Hf.
Qed.

Lemma closePath_closes_the_path_witness :
  well_typed (abc 1) ∧ invariants (abc 1) ∧
  ∃ newState,
    (createTabsReducer defaultConfig browser (abc 1) (Router.closePath "/b")).1
      = Normal newState
    ∧ Router.isTabOpen newState "/b" = Normal false
    ∧ Router.getTabByPath newState "/c" = Normal (tab (T "/c")).
Proof.
  assert (Hwt : well_typed (abc 1)) by concrete.
  assert (Hinv : invariants (abc 1)) by concrete.
  split_and!; [done..|].
  destruct (closePath_closes_the_path defaultConfig browser (abc 1) "/b"
              Hwt Hinv ltac:(concrete)) as (newState & Hr & Hopen & Hget).
  exists newState. split_and!; [exact Hr | exact Hopen |].
  by rewrite (Hget "/c").
Defined.

(** ** Clicks on a [Link] *)

Section Clicks.
Variable search_params : string → Params.
Implicit Types (props : Link.LinkProps) (e : Link.MouseEvent) (a : list Slot).

Let parsed props := Link.parsedHref search_params (Link.href props).

Lemma click_on_tabs props a host e :
  Forall is_tab a →
  Link.click search_params props a host e =
    Normal (Link.handleClick props (parsed props)
              (Link.shouldSwitchToExisting
                 (bool_decide (Exists (has_path (Link.parsed_path (parsed props))) a))
                 props)
              host e).
Proof.
  intros Ha. unfold Link.click, Link.tabExists. fold (parsed props).
  by rewrite some_tabs.
Qed.

Lemma click_calls props a host e :
  Forall is_tab a → left_to_browser props e = false →
  ∃ effects,
    Link.click search_params props a host e = Normal effects
    ∧ actions_of effects =
        [ if bool_decide (Link.target props = Some "_blank")
          then ADD_TAB (Link.destination (parsed props))
          else if Link.replace props
          then REPLACE_TAB (Link.destination (parsed props))
          else if bool_decide (Exists (has_path (Link.parsed_path (parsed props))) a)
          then SET_ACTIVE_TAB (Link.parsed_path (parsed props))
          else ADD_TAB (Link.destination (parsed props)) ].
Proof.
  intros Ha Hleft. rewrite click_on_tabs by done. eexists. split; [done|].
  unfold Link.handleClick, Link.shouldSwitchToExisting.
  unfold left_to_browser, Link.seen in Hleft. cbv zeta in Hleft.
  rewrite Hleft.
  destruct (bool_decide (Link.target props = Some "_blank")); [done|].
  destruct (Link.replace props),
    (bool_decide (Exists (has_path (Link.parsed_path (parsed props))) a));
    cbn [andb negb]; try done;
    by destruct (negb (bool_decide (Link.parsed_hash (parsed props) = ""))
                 && window host).
Qed.

(** X15. The scroll to the hash of a link is scheduled only after a
    navigation: a click left to the browser has no effect at all; a
    click the component handles prevents the default first, and sets
    the timer (100 ms, for the hash of the link) exactly when the hash
    is not empty, a [window] exists, the target is not ["_blank"], and
    the click did not switch to an open tab, that is [replace] is set
    or no tab has the path of the link. *)
Theorem click_scrolls_after_navigation_only props a host e :
  Forall is_tab a →
  ∃ effects,
    Link.click search_params props a host e = Normal effects
    ∧ (left_to_browser props e = true → effects = [])
    ∧ (left_to_browser props e = false →
       head effects = Some Link.preventDefault
       ∧ ∀ h d,
           Link.setTimeout_scrollIntoView h d ∈ effects ↔
             h = Link.parsed_hash (parsed props) ∧ d = 100
             ∧ h ≠ "" ∧ window host = true
             ∧ Link.target props ≠ Some "_blank"
             ∧ (Link.replace props = true
                ∨ ¬ Exists (has_path (Link.parsed_path (parsed props))) a)).
Proof.
  intros Ha. rewrite click_on_tabs by done. eexists. split; [done|].
  unfold Link.handleClick, Link.shouldSwitchToExisting.
  unfold left_to_browser, Link.seen. cbv zeta.
  split; [by intros ->|]. intros ->. split; [done|]. intros h d.
  destruct (decide (Link.target props = Some "_blank")) as [Hb|Hb].
  { rewrite (bool_decide_eq_true_2 _ Hb).
    rewrite !elem_of_cons, elem_of_nil. intuition congruence. }
  rewrite (bool_decide_eq_false_2 _ Hb). cbn [negb andb].
  destruct (decide (Exists (has_path (Link.parsed_path (parsed props))) a))
    as [Hex|Hex];
    [rewrite (bool_decide_eq_true_2 _ Hex)|rewrite (bool_decide_eq_false_2 _ Hex)];
    (destruct (decide (Link.parsed_hash (parsed props) = "")) as [Hh|Hh];
     [rewrite (bool_decide_eq_true_2 _ Hh)|rewrite (bool_decide_eq_false_2 _ Hh)]);
    destruct (Link.replace props), (window host); cbn [andb negb app];
    rewrite !elem_of_cons, elem_of_nil; intuition congruence.
Qed.

Lemma shows_path state t p :
  Router.active state = Some t → path t = p → p ≠ "" →
  Router.pathname state = p.
Proof.
  intros Hact <- Hp. unfold Router.pathname, Router.or_root. rewrite Hact.
  by rewrite bool_decide_eq_false_2.
Qed.

Lemma REPLACE_TAB_active config host state t :
  valid state →
  ∃ newState t',
    (createTabsReducer config host state (REPLACE_TAB t)).1 = Normal newState
    ∧ Router.active newState = Some t' ∧ path t' = path t.
Proof.
  intros ([Ha Hlen] & Hne & [Hr _]). specialize (Hr Hne).
  destruct state as [a x]. cbn [tabs active_index] in *.
  rewrite reducer_fst, (transition_REPLACE_TAB a x _ Ha).
  destruct (list_find _ a) as [[i s]|] eqn:Hf.
  - apply list_find_Some in Hf as (Hi & Hs & _).
    destruct (is_tab_inv _ (Forall_lookup_1 _ _ _ _ Ha Hi)) as [t1 ->].
    eexists _, t1. split_and!; [done| |done]. by apply active_at.
  - rewrite (set_in_range x _ a Hr Hlen). eexists _, t.
    split_and!; [done| |done].
    rewrite <- (Z2Nat.id x) at 2 by lia. apply active_at.
    apply list_lookup_insert_eq. unfold Array.length in Hr. lia.
Qed.

Lemma SET_ACTIVE_TAB_active config host state p :
  well_typed state → Exists (has_path p) (tabs state) →
  ∃ newState t',
    (createTabsReducer config host state (SET_ACTIVE_TAB p)).1 = Normal newState
    ∧ Router.active newState = Some t' ∧ path t' = p.
Proof.
  intros [Ha _] Hex. destruct state as [a x]. cbn [tabs] in *.
  rewrite reducer_fst, (transition_SET_ACTIVE_TAB a x _ Ha).
  destruct (list_find _ a) as [[i s]|] eqn:Hf.
  - apply list_find_Some in Hf as (Hi & Hs & _).
    destruct (is_tab_inv _ (Forall_lookup_1 _ _ _ _ Ha Hi)) as [t1 ->].
    eexists _, t1. split_and!; [done| |done]. by apply active_at.
  - apply list_find_None, Forall_Exists_neg in Hf. done.
Qed.

Lemma ADD_TAB_active config host state t :
  well_typed state →
  ∃ newState t',
    (createTabsReducer config host state (ADD_TAB t)).1 = Normal newState
    ∧ Router.active newState = Some t' ∧ path t' = path t.
Proof.
  intros Hwt.
  destruct (ADD_TAB_result config host state t Hwt)
    as ([a' x'] & i & Hr & Hx & Ha' & Hf).
  cbn [tabs active_index] in *. subst x'. eexists _, t.
  split_and!; [done| |done].
  apply active_at. by apply list_find_Some in Hf as (? & _).
Qed.

(** X16. A link that was clicked is the active link: after a click the
    component handles, on a state that has a tab and satisfies the
    invariants, the reducer run on what the click dispatched gives a
    state whose [pathname] is the path of the link, so [isActive] holds
    there, whatever [replace] and [target] are.  The path of the link
    must not be empty: [pathname] never is, so a link with an empty path
    is active in no state. *)
Theorem clicked_link_is_active config host props state e :
  valid state → left_to_browser props e = false →
  (Link.parsed_path (parsed props) ≠ "" →
   ∃ effects newState,
     Link.click search_params props (tabs state) host e = Normal effects
     ∧ (dispatch_all config host state (actions_of effects)).1 = Normal newState
     ∧ isActive newState (parsed props) = true)
  ∧ (Link.parsed_path (parsed props) = "" → isActive state (parsed props) = false).
Proof.
  intros Hv Hleft. split.
  - intros Hp. pose proof Hv as (Hwt & _).
    destruct (click_calls props (tabs state) host e (proj1 Hwt) Hleft)
      as (effects & Hc & Hcalls).
    exists effects. rewrite Hcalls, dispatch_all_one.
    assert (∀ action,
              (∃ newState t',
                 (createTabsReducer config host state action).1 = Normal newState
                 ∧ Router.active newState = Some t'
                 ∧ path t' = Link.parsed_path (parsed props)) →
              ∃ newState,
                Link.click search_params props (tabs state) host e = Normal effects
                ∧ (createTabsReducer config host state action).1 = Normal newState
                ∧ isActive newState (parsed props) = true) as Hshow.
    { intros action (newState & t' & Hr & Hact & Ht'). exists newState.
      split_and!; [done..|]. unfold isActive.
      by rewrite (shows_path newState t' _ Hact Ht' Hp), bool_decide_eq_true_2. }
    apply Hshow. case_bool_decide.
    { by apply ADD_TAB_active. }
    destruct (Link.replace props).
    { by apply REPLACE_TAB_active. }
    case_bool_decide.
    + by apply SET_ACTIVE_TAB_active.
    + by apply ADD_TAB_active.
  - intros Hp. unfold isActive. rewrite Hp. apply bool_decide_eq_false_2.
    apply pathname_not_empty.
Qed.

(** X17. A click the component handles on a link to a path that a tab
    has, on a state that satisfies the invariants, makes that tab the
    active one and changes neither the list nor the params of the tab,
    with and without [replace]: the params of the link are not used.
    With target ["_blank"] the tab is overwritten by the tab of the
    link, params included. *)
Theorem click_on_link_to_open_tab config host props state e (i : nat) t0 :
  well_typed state → invariants state → left_to_browser props e = false →
  tabs state !! i = Some (elem (tab t0)) →
  path t0 = Link.parsed_path (parsed props) →
  ∃ effects,
    Link.click search_params props (tabs state) host e = Normal effects
    ∧ (dispatch_all config host state (actions_of effects)).1
        = Normal
            {| tabs :=
                 if bool_decide (Link.target props = Some "_blank")
                 then <[i := elem (tab (Link.destination (parsed props)))]>
                        (tabs state)
                 else tabs state;
               active_index := Z.of_nat i |}.
Proof.
  intros [Ha Hlen] [_ Hnd] Hleft Hi Hp.
  destruct (click_calls props (tabs state) host e Ha Hleft)
    as (effects & Hc & Hcalls).
  exists effects. split; [done|]. rewrite Hcalls, dispatch_all_one, reducer_fst.
  destruct state as [a x]. unfold unique_paths in Hnd. cbn [tabs] in *.
  pose proof (list_find_unique _ a i t0 Ha Hnd Hi Hp) as Hf.
  assert (Exists (has_path (Link.parsed_path (parsed props))) a) as Hex.
  { apply Exists_exists. exists (elem (tab t0)).
    split; [by eapply list_elem_of_lookup_2|done]. }
  case_bool_decide.
  { rewrite (transition_ADD_TAB a x _ Ha). cbn [Link.destination path].
    by rewrite Hf. }
  destruct (Link.replace props).
  { rewrite (transition_REPLACE_TAB a x _ Ha). cbn [Link.destination path].
    by rewrite Hf. }
  rewrite (bool_decide_eq_true_2 _ Hex).
  by rewrite (transition_SET_ACTIVE_TAB a x _ Ha), Hf.
Qed.

End Clicks.

Lemma click_scrolls_after_navigation_only_witness :
  ∃ effects,
    Link.click (λ _, ∅) (link_to (Link.href_string "/b#top") false None)
      (tabs (abc 0)) browser plain_click = Normal effects
    ∧ Link.setTimeout_scrollIntoView "#top" 100 ∉ effects.
Proof.
  destruct (click_scrolls_after_navigation_only (λ _, ∅)
              (link_to (Link.href_string "/b#top") false None)
              (tabs (abc 0)) browser plain_click)
    as (effects & Hc & _ & Hhandled).
  - by repeat constructor.
  - exists effects. split; [exact Hc|]. intros Hin.
    apply (proj2 (Hhandled eq_refl)) in Hin as (_ & _ & _ & _ & _ & [Hr|Hex]).
    + discriminate Hr.
    + apply Hex. apply Exists_cons_tl, Exists_cons_hd. reflexivity.
Defined.

Lemma clicked_link_is_active_witness :
  valid (abc 0) ∧
  ∃ effects newState,
    Link.click (λ _, ∅) (link_to (Link.href_string "/d?x=1") true None)
      (tabs (abc 0)) browser plain_click = Normal effects
    ∧ (dispatch_all defaultConfig browser (abc 0) (actions_of effects)).1
        = Normal newState
    ∧ isActive newState
        (Link.parsedHref (λ _, ∅) (Link.href_string "/d?x=1")) = true.
Proof.
  assert (Hv : valid (abc 0)).
  { split_and!; [concrete|done|concrete]. }
  split; [done|].
  exact (proj1 (clicked_link_is_active (λ _, ∅) defaultConfig browser
                  (link_to (Link.href_string "/d?x=1") true None) (abc 0)
                  plain_click Hv eq_refl) ltac:(concrete)).
Defined.

Lemma click_on_link_to_open_tab_witness :
  well_typed (state_of [T "/a"; b5] 0) ∧ invariants (state_of [T "/a"; b5] 0) ∧
  ∃ effects,
    Link.click (λ _, ∅) (link_to (Link.href_string "/b") true None)
      (tabs (state_of [T "/a"; b5] 0)) browser plain_click = Normal effects
    ∧ (dispatch_all defaultConfig browser (state_of [T "/a"; b5] 0)
         (actions_of effects)).1 = Normal (state_of [T "/a"; b5] 1).
Proof.
  assert (Hwt : well_typed (state_of [T "/a"; b5] 0)) by concrete.
  assert (Hinv : invariants (state_of [T "/a"; b5] 0)) by concrete.
  split_and!; [done..|].
  exact (click_on_link_to_open_tab (λ _, ∅) defaultConfig browser
           (link_to (Link.href_string "/b") true None)
           (state_of [T "/a"; b5] 0) plain_click 1%nat b5
           Hwt Hinv eq_refl eq_refl eq_refl).
Defined.

(** ** The parts of a string href *)

Section Strings.
Implicit Types (s pre post rest : string) (c : ascii).

Lemma append_cons c s1 s2 : String c s1 +:+ s2 = String c (s1 +:+ s2).
Proof. reflexivity. Qed.

Lemma append_nil_l s : "" +:+ s = s.
Proof. reflexivity. Qed.

Lemma append_assoc s1 s2 s3 : (s1 +:+ s2) +:+ s3 = s1 +:+ (s2 +:+ s3).
Proof.
  induction s1 as [|c s1 IH]; [done|]. rewrite !append_cons. by rewrite IH.
Qed.

Lemma append_nil_r s : s +:+ "" = s.
Proof. induction s as [|c s IH]; [done|]. rewrite append_cons. by rewrite IH. Qed.

Lemma length_append s1 s2 :
  String.length (s1 +:+ s2) = (String.length s1 + String.length s2)%nat.
Proof.
  induction s1 as [|c s1 IH]; [done|]. rewrite append_cons. simpl. by rewrite IH.
Qed.

Lemma substring_all s : String.substring 0 (String.length s) s = s.
Proof. induction s as [|c s IH]; simpl; [done|]. by rewrite IH. Qed.

Lemma substring_prefix pre rest :
  String.substring 0 (String.length pre) (pre +:+ rest) = pre.
Proof.
  induction pre as [|c pre IH]; [by destruct rest|].
  rewrite append_cons. simpl. by rewrite IH.
Qed.

Lemma substring_suffix pre rest :
  String.substring (String.length pre) (String.length rest) (pre +:+ rest) = rest.
Proof.
  induction pre as [|c pre IH]; [apply substring_all|].
  rewrite append_cons. simpl. done.
Qed.

(** [s.indexOf(c)] for a one-character [c] cuts [s] at the first [c]. *)
Lemma index_char c s :
  match String.index 0 (String c "") s with
  | Some n =>
      ∃ pre post,
        s = pre +:+ String c post ∧ String.length pre = n
        ∧ String.index 0 (String c "") pre = None
  | None => True
  end.
Proof.
  induction s as [|b s IH]; [done|]. cbn [String.index String.prefix].
  destruct (ascii_dec c b) as [->|Hcb].
  - replace (String.prefix "" s) with true by (by destruct s).
    by exists "", s.
  - destruct (String.index 0 (String c "") s) as [n|]; [|done].
    destruct IH as (pre & post & -> & <- & Hpre).
    exists (String b pre), post. split_and!; [done..|].
    cbn [String.index String.prefix]. destruct (ascii_dec c b); [done|].
    by rewrite Hpre.
Qed.

Lemma index_char_append c s1 s2 :
  String.index 0 (String c "") (s1 +:+ s2) = None →
  String.index 0 (String c "") s1 = None
  ∧ String.index 0 (String c "") s2 = None.
Proof.
  induction s1 as [|b s1 IH]; [done|].
  rewrite append_cons. cbn [String.index String.prefix].
  destruct (ascii_dec c b) as [->|Hcb].
  - by replace (String.prefix "" (s1 +:+ s2)) with true
      by (by destruct (s1 +:+ s2)).
  - destruct (String.index 0 (String c "") (s1 +:+ s2)) as [n|] eqn:Hi; [done|].
    intros _. destruct (IH eq_refl) as [-> ->]. done.
Qed.

Lemma JS_substring_before pre rest :
  JSString.substring (pre +:+ rest) 0 (Some (Z.of_nat (String.length pre))) = pre.
Proof.
  unfold JSString.substring. cbn [default]. unfold id. cbv zeta.
  rewrite length_append.
  match goal with
  | |- String.substring ?n ?m _ = _ =>
      replace n with 0%nat by lia;
      replace m with (String.length pre) by lia
  end.
  apply substring_prefix.
Qed.

Lemma JS_substring_from pre rest :
  JSString.substring (pre +:+ rest) (Z.of_nat (String.length pre)) None = rest.
Proof.
  unfold JSString.substring. cbn [default]. unfold id. cbv zeta.
  rewrite length_append.
  match goal with
  | |- String.substring ?n ?m _ = _ =>
      replace n with (String.length pre) by lia;
      replace m with (String.length rest) by lia
  end.
  apply substring_suffix.
Qed.

End Strings.

(** X18. [parsedHref] of a string href cuts it in three and loses no
    character: the href is the path, then the query string with its
    question mark (when a question mark comes before the first hash),
    then the hash.  The path holds neither a hash nor a question mark,
    the query string holds no hash, the hash part is empty or starts
    with the hash sign, and the params are read from the query string
    without its question mark, or are empty when that is empty. *)
Theorem parsedHref_cuts_the_href search_params href :
  let parsed := Link.parsedHref search_params (Link.href_string href) in
  ∃ search,
    href = Link.parsed_path parsed +:+ search +:+ Link.parsed_hash parsed
    ∧ JSString.indexOf (Link.parsed_path parsed) "#" = -1
    ∧ JSString.indexOf (Link.parsed_path parsed) "?" = -1
    ∧ JSString.indexOf search "#" = -1
    ∧ (Link.parsed_hash parsed = ""
       ∨ ∃ rest, Link.parsed_hash parsed = String "#" rest)
    ∧ (search = "" ∧ Link.parsed_params parsed = ∅
       ∨ ∃ query,
           search = String "?" query
           ∧ Link.parsed_params parsed
               = if decide (query = "") then ∅ else search_params query).
Proof.
  cbv zeta. unfold Link.parsedHref.
  assert (∃ path0 hash,
            (if negb (JSString.indexOf href "#" =? -1)
             then (JSString.substring href 0 (Some (JSString.indexOf href "#")),
                   JSString.substring href (JSString.indexOf href "#") None)
             else (href, "")) = (path0, hash)
            ∧ href = path0 +:+ hash
            ∧ String.index 0 "#" path0 = None
            ∧ (hash = "" ∨ ∃ rest, hash = String "#" rest))
    as (path0 & hash & -> & Hhref & Hnone & Hhash).
  { unfold JSString.indexOf. pose proof (index_char "#" href) as Hi.
    destruct (String.index 0 "#" href) as [n|] eqn:Hn.
    - destruct Hi as (pre & post & -> & <- & Hpre).
      rewrite (proj2 (Z.eqb_neq _ (-1))) by lia. cbn [negb].
      rewrite JS_substring_before, JS_substring_from. eauto 10.
    - cbn [Z.eqb negb]. exists href, "". by rewrite append_nil_r; eauto. }
  assert (∃ path search,
            (if negb (JSString.indexOf path0 "?" =? -1)
             then (JSString.substring path0 0 (Some (JSString.indexOf path0 "?")),
                   JSString.substring path0 (JSString.indexOf path0 "?" + 1) None)
             else (path0, "")) = (path, match search with
                                        | "" => ""
                                        | String _ query => query
                                        end)
            ∧ path0 = path +:+ search
            ∧ String.index 0 "?" path = None
            ∧ (search = "" ∨ ∃ query, search = String "?" query))
    as (path & search & -> & Hpath & Hq & Hsearch).
  { unfold JSString.indexOf. pose proof (index_char "?" path0) as Hi.
    destruct (String.index 0 "?" path0) as [n|] eqn:Hn.
    - destruct Hi as (pre & post & -> & <- & Hpre).
      rewrite (proj2 (Z.eqb_neq _ (-1))) by lia. cbn [negb].
      rewrite JS_substring_before. exists pre, (String "?" post).
      split_and!; [|done|done|eauto]. f_equal.
      replace (pre +:+ String "?" post) with ((pre +:+ "?") +:+ post)
        by (by rewrite append_assoc).
      replace (Z.of_nat (String.length pre) + 1)
        with (Z.of_nat (String.length (pre +:+ "?")))
        by (rewrite length_append; simpl; lia).
      apply JS_substring_from.
    - cbn [Z.eqb negb]. exists path0, "". by rewrite append_nil_r; eauto. }
  subst path0. apply index_char_append in Hnone as [Hnp Hns].
  exists search. cbn [Link.parsed_path Link.parsed_hash Link.parsed_params].
  unfold JSString.indexOf. rewrite Hnp, Hq, Hns.
  split_and!; [by rewrite <- append_assoc|done..|].
  destruct Hsearch as [->|[query ->]]; [by left|right].
  exists query. split; [done|]. by case_bool_decide; case_decide.
Qed.

(** ** What the storage holds after a run *)

Lemma reducer_calls config host state action newState calls :
  createTabsReducer config host state action = (Normal newState, calls) →
  calls = [] ∧ newState = state ∨ calls = persist config host newState.
Proof.
  unfold createTabsReducer.
  destruct (transition state action) as [[|s]|err]; intros [=]; subst; eauto.
Qed.

(** X19. The storage follows the state through a run of dispatches: when
    the run returns a state, either nothing was written and the state is
    the one the run started from, or the last two writes are the tab
    list and the active index of the state returned. *)
Theorem storage_follows_the_state config host actions :
  ∀ state newState calls,
    dispatch_all config host state actions = (Normal newState, calls) →
    calls = [] ∧ newState = state
    ∨ ∃ earlier, calls = earlier ++ persist config host newState.
Proof.
  induction actions as [|action rest IH]; intros state newState calls Hrun.
  - injection Hrun as <- <-. by left.
  - cbn [dispatch_all] in Hrun.
    destruct (createTabsReducer config host state action)
      as [[s1|err] calls1] eqn:Hstep; [|done].
    destruct (dispatch_all config host s1 rest) as [r calls2] eqn:Hrest.
    injection Hrun as -> <-.
    destruct (IH _ _ _ Hrest) as [[-> ->]|[earlier ->]].
    + rewrite app_nil_r.
      destruct (reducer_calls _ _ _ _ _ _ Hstep) as [[-> ->]| ->]; [by left|].
      right. by exists [].
    + right. exists (calls1 ++ earlier). by rewrite app_assoc.
Qed.

(** ** Errors and defaults of [getInitialState] *)

Lemma parse_throws_SyntaxError text e :
  JSON.parse text = Throw e → e = SyntaxError.
Proof.
  unfold JSON.parse.
  destruct (JSON.value _ text) as [v rest| |]; [|congruence..].
  destruct (JSON.skip_ws rest); congruence.
Qed.

(** X20. [getInitialState] throws only a SyntaxError, and exactly when a
    [window] exists and the stored tab list is a non-empty text that
    [JSON.parse] rejects; the stored active index never makes it throw.
    What it returns has a truthy [tabs] and an [active_index] that is 0
    or a number other than 0 and NaN. *)
Theorem getInitialState_errors_and_defaults config host :
  (∀ e,
     getInitialState config host = Throw e ↔
       e = SyntaxError ∧ window host = true
       ∧ ∃ text,
           getItem host (storageKey config) = Some text ∧ text ≠ ""
           ∧ JSON.parse text = Throw SyntaxError)
  ∧ (∀ st,
       getInitialState config host = Normal st →
       truthy (initial_tabs st) = true
       ∧ (initial_active_index st = Decimal false 0 0
          ∨ falsy_number (initial_active_index st) = false)).
Proof.
  unfold getInitialState. destruct (window host); cbn [negb].
  2:{ split; [|intros st [= <-]; cbn; by eauto].
      intros e. split; [done|]. by intros (_ & ? & _). }
  assert (∀ text : string,
            (if falsy_number (Number text) then Decimal false 0 0 else Number text)
              = Decimal false 0 0
            ∨ falsy_number
                (if falsy_number (Number text) then Decimal false 0 0
                 else Number text) = false) as Hidx.
  { intros text. destruct (falsy_number (Number text)) eqn:Hf; eauto. }
  assert (∀ o : option string,
            match o with
            | None | Some EmptyString => Decimal false 0 0
            | Some text =>
                if falsy_number (Number text) then Decimal false 0 0
                else Number text
            end = Decimal false 0 0
            ∨ falsy_number
                match o with
                | None | Some EmptyString => Decimal false 0 0
                | Some text =>
                    if falsy_number (Number text) then Decimal false 0 0
                    else Number text
                end = false) as Hidx'.
  { intros [[|c text]|]; [by left|apply Hidx|by left]. }
  destruct (getItem host (storageKey config)) as [[|c text]|] eqn:Hget.
  - split; [|intros st [= <-]; cbn; by eauto].
    intros e. split; [done|]. by intros (_ & _ & ? & [= <-] & ? & _).
  - destruct (JSON.parse (String c text)) as [v|err] eqn:Hparse.
    + split.
      * intros e. split; [done|]. intros (_ & _ & ? & [= <-] & _ & Hthrow).
        congruence.
      * intros st [= <-]. cbn [initial_tabs initial_active_index].
        split; [|by apply Hidx'].
        by destruct (truthy v) eqn:Hv.
    + apply parse_throws_SyntaxError in Hparse as Herr. subst err. split.
      * intros e. split; [intros [= <-]|by intros (-> & _)].
        split_and!; [done..|]. by exists (String c text).
      * done.
  - split; [|intros st [= <-]; cbn; by eauto].
    intros e. split; [done|]. by intros (_ & _ & ? & [=] & _).
Qed.

Lemma storage_follows_the_state_witness :
  ∃ earlier,
    (dispatch_all defaultConfig browser (abc 0)
       [ADD_TAB (T "/d"); SET_ACTIVE_TAB "/x"; SET_ACTIVE_TAB "/b"]).2
      = earlier
        ++ persist defaultConfig browser
             (state_of [T "/a"; T "/b"; T "/c"; T "/d"] 1).
Proof.
  destruct (storage_follows_the_state defaultConfig browser
              [ADD_TAB (T "/d"); SET_ACTIVE_TAB "/x"; SET_ACTIVE_TAB "/b"]
              (abc 0) _ _ eq_refl) as [[Hnone _]|[earlier Hcalls]].
  - discriminate Hnone.
  - exists earlier. exact Hcalls.
Defined.

(** ** [back] is by position *)

(** X21. [back()] goes to the tab on the left, not to the tab shown
    before: after [push] of a path that no tab has, which appends the tab
    and shows it, [back()] shows the tab that was last in the list
    before the push, whichever tab was active then.  Stated for a state
    that has a tab and satisfies the invariants and whose tabs have
    non-empty paths. *)
Theorem push_then_back config host state url :
  valid state → absent (Router.desiredPath url) state → absent "" state →
  ∃ pushed,
    (createTabsReducer config host state (Router.push url)).1 = Normal pushed
    ∧ tabs pushed = tabs state ++ [elem (tab (Router.payload url))]
    ∧ (dispatch_all config host pushed (Router.back pushed)).1
        = Normal {| tabs := tabs pushed;
                    active_index := Array.length (tabs state) - 1 |}.
Proof.
  intros (Hwt & Hne & Hinv) Habs Hroot.
  destruct (invariants_preserved config host state (Router.push url) Hwt Hinv I)
    as (pushed & Hr & [_ Hnd] & _).
  exists pushed. split; [done|]. destruct Hwt as [Ha _].
  destruct state as [a x]. unfold absent in *. cbn [tabs] in *.
  unfold Router.push in Hr.
  rewrite reducer_fst, (transition_ADD_TAB a x _ Ha) in Hr.
  cbn [Router.payload path] in Hr. rewrite (list_find_absent _ a Habs) in Hr.
  injection Hr as <-. unfold unique_paths in Hnd. cbn [tabs active_index] in *.
  split; [done|].
  assert (0 < length a)%nat as Hlen by (destruct a; [done|simpl; lia]).
  destruct (lookup_lt_is_Some_2 a (length a - 1)) as [s Hs]; [lia|].
  destruct (is_tab_inv _ (Forall_lookup_1 _ _ _ _ Ha Hs)) as [t ->].
  pose proof (Forall_lookup_1 _ _ _ _ Hroot Hs) as Ht. simpl in Ht.
  assert ((a ++ [elem (tab (Router.payload url))]) !! (length a - 1)%nat
            = Some (elem (tab t))) as Hs'.
  { rewrite lookup_app_l by lia. done. }
  unfold Router.back, Array.length. cbn [tabs active_index].
  rewrite (proj2 (Z.gtb_gt _ 0)) by lia. unfold array_read.
  rewrite (proj2 (Z.leb_le 0 _)) by lia.
  replace (Z.to_nat (Z.of_nat (length a) - 1)) with (length a - 1)%nat by lia.
  rewrite Hs'. cbn [Array.get]. unfold Router.or_root.
  rewrite bool_decide_eq_false_2 by done.
  rewrite dispatch_all_one. unfold Router.switchToPath.
  rewrite (SET_ACTIVE_TAB_at config host _ _ (length a - 1) t); [| |done|done].
  - do 2 f_equal. lia.
  - apply Forall_app. split; [done|]. by repeat constructor.
Qed.

Lemma push_then_back_witness :
  valid (abc 0) ∧
  ∃ pushed,
    (createTabsReducer defaultConfig browser (abc 0)
       (Router.push (Router.url_string "/d"))).1 = Normal pushed
    ∧ (dispatch_all defaultConfig browser pushed (Router.back pushed)).1
        = Normal {| tabs := tabs pushed; active_index := 2 |}.
Proof.
  assert (Hv : valid (abc 0)).
  { split_and!; [concrete|done|concrete]. }
  split; [done|].
  destruct (push_then_back defaultConfig browser (abc 0)
              (Router.url_string "/d") Hv)
    as (pushed & Hr & _ & Hback).
  - repeat constructor; by vm_compute.
  - repeat constructor; by vm_compute.
  - exists pushed. split; [exact Hr | exact Hback].
Defined.
